(** * Descriptive statistics notebook (1_descriptive_stats.ipynb)

    A shallow embedding of the code cells of the notebook.  The notebook
    binds [samples] to an integer numpy array, sorts it, and prints a
    series of statistics obtained from numpy, scipy and a few index
    expressions of its own.

    Modelling conventions.
    - The array built by [np.array] from a list of Python integers is a
      [list Z].  A non-empty list of 64-bit values ([int64_array]) gives
      an int64 array, and arithmetic between two of its entries wraps
      around.  The empty list gives a float64 array, which matters to
      [np.bincount] only.
    - A float64 value is a [fl]: a number, NaN, or a signed infinity.
      The conversion of an int64 entry to float64 rounds to 53
      significant bits, as the hardware does.  The arithmetic on the
      converted values is exact: rationals ([Q]) where the library
      function only adds, multiplies and divides, reals ([R]) once a
      square root is taken.  The rounding of each single operation is
      not part of the model, so general statements about float results
      are made for arrays that are [small]: there float64 sums of the
      entries are exact and the remaining error is rounding error.
    - A Python expression that may raise is a [result]: [Ret v] or
      [Raise e].  Statements of one cell run in order, so a cell is a
      chain of binds.
    - numpy and scipy functions are modelled from their documented
      behaviour on a one-dimensional integer array. *)

From Stdlib Require Import ZArith QArith Qround Reals List Permutation Sorted Lia Lra Bool.
From Stdlib Require Import Qpower Qreals.
From Stdlib Require Lqa.
Import ListNotations.

Open Scope Z_scope.

(** ** Outcomes of Python expressions *)

Inductive exn : Type :=
| IndexError
| ValueError
| TypeError.

Inductive result (A : Type) : Type :=
| Ret (a : A)
| Raise (e : exn).

Arguments Ret {A} a.
Arguments Raise {A} e.

Definition bind {A B : Type} (m : result A) (k : A -> result B) : result B :=
  match m with
  | Ret a => k a
  | Raise e => Raise e
  end.

Notation "x <- m ;; k" := (bind m (fun x => k))
  (at level 61, m at next level, right associativity).

(** A float64 carrying an exact number of type [A]. *)
Inductive fl (A : Type) : Type :=
| Num (x : A)
| NaN
| Inf (negative : bool).

Arguments Num {A} x.
Arguments NaN {A}.
Arguments Inf {A} negative.

(** ** Arrays *)

Definition len (a : list Z) : Z := Z.of_nat (length a).

(** The value of an int64 result: the integer is taken modulo 2^64 into
    [-2^63, 2^63). *)
Definition wrap64 (z : Z) : Z := (z + 2 ^ 63) mod 2 ^ 64 - 2 ^ 63.

(** [x - y] on two np.int64 scalars. *)
Definition sub64 (x y : Z) : Z := wrap64 (x - y).

(** An int64 converted to float64: exact up to 2^53 in magnitude, beyond
    that rounded to the nearest multiple of the spacing, a tie going to
    the even significand.  The result is again an integer. *)
Definition to_float64 (x : Z) : Z :=
  let a := Z.abs x in
  let e := Z.max 0 (Z.log2 a - 52) in
  if e =? 0 then x
  else
    let q := Z.shiftr a e in
    let r := a - Z.shiftl q e in
    let half := Z.shiftl 1 (e - 1) in
    let q' := if (half <? r) || ((half =? r) && Z.odd q) then q + 1 else q in
    Z.sgn x * Z.shiftl q' e.

(** [np.sort]: ascending order.  The result of sorting integers does not
    depend on the algorithm, so a straight insertion sort stands for it. *)
Fixpoint insert (x : Z) (a : list Z) : list Z :=
  match a with
  | [] => [x]
  | y :: r => if x <=? y then x :: y :: r else y :: insert x r
  end.

Fixpoint np_sort (a : list Z) : list Z :=
  match a with
  | [] => []
  | x :: r => insert x (np_sort r)
  end.

(** [a[i]] for a Python integer [i]: a negative index counts from the
    end, anything outside [-n, n) raises IndexError. *)
Definition getitem (a : list Z) (i : Z) : result Z :=
  let n := len a in
  if (0 <=? i) && (i <? n) then
    match nth_error a (Z.to_nat i) with
    | Some v => Ret v
    | None => Raise IndexError
    end
  else if (- n <=? i) && (i <? 0) then
    match nth_error a (Z.to_nat (n + i)) with
    | Some v => Ret v
    | None => Raise IndexError
    end
  else Raise IndexError.

(** [x / y] on Python integers is true division; the divisors used by the
    notebook are the literals 2 and 4. *)
Definition truediv (x y : Z) : Q := inject_Z x / inject_Z y.

(** [int(q)] truncates toward zero. *)
Definition py_int (q : Q) : Z := Z.quot (Qnum q) (Z.pos (Qden q)).

(** Builtin [max] and [min] over the array; an empty argument raises
    ValueError. *)
Definition py_max (a : list Z) : result Z :=
  match a with
  | [] => Raise ValueError
  | x :: r => Ret (fold_left Z.max r x)
  end.

Definition py_min (a : list Z) : result Z :=
  match a with
  | [] => Raise ValueError
  | x :: r => Ret (fold_left Z.min r x)
  end.

(** ** numpy reductions *)

Definition zsum (a : list Z) : Z := fold_right Z.add 0 a.

Definition qsum (a : list Q) : Q := fold_right Qplus 0%Q a.

(** Float division of two numbers: x/0 gives NaN for x = 0 and a signed
    infinity otherwise (numpy warns and goes on). *)
Definition fdivQ (x y : Q) : fl Q :=
  if Qeq_bool y 0 then
    if Qeq_bool x 0 then NaN else Inf (negb (Qle_bool 0 x))
  else Num (x / y)%Q.

(** [np.mean] of a float array: the sum over the number of entries.  The
    sum is the exact one; the float64 sum is the same as long as the
    partial sums are integers below 2^53. *)
Definition mean_of (a : list Q) : fl Q :=
  fdivQ (qsum a) (inject_Z (Z.of_nat (length a))).

(** The array converted to float64, entry by entry. *)
Definition as_float (a : list Z) : list Q :=
  map (fun x => inject_Z (to_float64 x)) a.

Definition np_mean (a : list Z) : fl Q := mean_of (as_float a).

(** The k-th power of the deviations of the converted entries from [m]. *)
Definition deviations (k : positive) (m : Q) (a : list Z) : list Q :=
  map (fun x => Qpower_positive (inject_Z (to_float64 x) - m) k) a.

(** [np.var(a, ddof)]: the squared deviations of the converted entries
    from the mean, summed and divided by [max(n - ddof, 0)], in exact
    arithmetic.  On the empty array the deviations are empty as well and
    the quotient is 0/0. *)
Definition np_var_ddof (ddof : Z) (a : list Z) : fl Q :=
  let rcount := inject_Z (Z.max (len a - ddof) 0) in
  match np_mean a with
  | Num m => fdivQ (qsum (deviations 2 m a)) rcount
  | _ => fdivQ (qsum []) rcount
  end.

(** The notebook calls [np.var(samples)]: ddof keeps its default 0. *)
Definition np_var (a : list Z) : fl Q := np_var_ddof 0 a.

(** Square root of a float. *)
Definition fsqrt (x : fl Q) : fl R :=
  match x with
  | Num q => if Qle_bool 0 q then Num (sqrt (Q2R q)) else NaN
  | NaN => NaN
  | Inf false => Inf false
  | Inf true => NaN
  end.

(** [np.std] is the square root of [np.var]. *)
Definition np_std (a : list Z) : fl R := fsqrt (np_var a).

(** ** Mode: [np.bincount(samples).argmax()] *)

Definition count (v : Z) (a : list Z) : Z :=
  Z.of_nat (count_occ Z.eq_dec a v).

(** [np.bincount]: entry [i] of the result counts the occurrences of [i];
    the result has [amax + 1] entries.  The float64 array that an empty
    list gives cannot be cast to integers and is refused with TypeError.
    A negative entry is refused with ValueError, and so is a maximum
    whose [amax + 1] eight-byte counters pass the largest array size
    (2^63 - 1 bytes).  Below that size the allocation can still fail
    for lack of memory on a given machine; the properties of the mode
    are stated for entries up to 2^20, where it cannot. *)
Definition bins (a : list Z) : nat :=
  match a with
  | [] => O
  | x :: r => Z.to_nat (fold_left Z.max r x + 1)
  end.

Definition amax (a : list Z) : Z :=
  match a with
  | [] => 0
  | x :: r => fold_left Z.max r x
  end.

Definition bincount (a : list Z) : result (list Z) :=
  match a with
  | [] => Raise TypeError
  | _ :: _ =>
      if existsb (fun v => v <? 0) a then Raise ValueError
      else if 2 ^ 60 <=? amax a + 1 then Raise ValueError
      else Ret (map (fun i => count (Z.of_nat i) a) (seq 0 (bins a)))
  end.

(** [argmax]: the index of the first occurrence of the largest entry;
    ValueError on an empty array. *)
Fixpoint argmax_from (a : list Z) (i best besti : Z) : Z :=
  match a with
  | [] => besti
  | c :: r =>
      if best <? c then argmax_from r (i + 1) c i
      else argmax_from r (i + 1) best besti
  end.

Definition argmax (a : list Z) : result Z :=
  match a with
  | [] => Raise ValueError
  | c :: r => Ret (argmax_from r 1 c 0)
  end.

(** ** Float arithmetic on reals, as used by the skewness cell *)

Definition toR (x : fl Q) : fl R :=
  match x with
  | Num q => Num (Q2R q)
  | NaN => NaN
  | Inf s => Inf s
  end.

Definition Rneg (x : R) : bool := if Rlt_dec x 0%R then true else false.

Definition Rzero (x : R) : bool := if Req_dec_T x 0%R then true else false.

Definition fsub (x y : fl R) : fl R :=
  match x, y with
  | Num a, Num b => Num (a - b)%R
  | NaN, _ | _, NaN => NaN
  | Inf s, Num _ => Inf s
  | Num _, Inf s => Inf (negb s)
  | Inf s, Inf t => if Bool.eqb s t then NaN else Inf s
  end.

Definition fmul (x y : fl R) : fl R :=
  match x, y with
  | Num a, Num b => Num (a * b)%R
  | NaN, _ | _, NaN => NaN
  | Inf s, Num b => if Rzero b then NaN else Inf (xorb s (Rneg b))
  | Num a, Inf s => if Rzero a then NaN else Inf (xorb s (Rneg a))
  | Inf s, Inf t => Inf (xorb s t)
  end.

Definition fdiv (x y : fl R) : fl R :=
  match x, y with
  | Num a, Num b =>
      if Rzero b then (if Rzero a then NaN else Inf (Rneg a))
      else Num (a / b)%R
  | NaN, _ | _, NaN => NaN
  | Inf s, Num b => Inf (xorb s (Rneg b))
  | Num _, Inf _ => Num 0%R
  | Inf _, Inf _ => NaN
  end.

(** ** scipy.stats *)

(** The k-th central moment, (1/n) * sum (x - mean)^k. *)
Definition moment (k : positive) (a : list Z) : fl Q :=
  match np_mean a with
  | Num m => mean_of (deviations k m a)
  | _ => NaN
  end.

(** scipy takes the data for constant, and answers NaN, when the second
    moment is not above [(resolution * mean)^2], the resolution of
    float64 being 1e-15. *)
Definition resolution : Q := 1 # 1000000000000000.

Definition degenerate (mean m2 : Q) : bool :=
  Qle_bool m2 ((resolution * mean) * (resolution * mean)).

(** [sp.stats.skew(a)] with its defaults (bias=True): m3 / m2**1.5. *)
Definition scipy_skew (a : list Z) : fl R :=
  match np_mean a, moment 2 a, moment 3 a with
  | Num mean, Num m2, Num m3 =>
      if degenerate mean m2 then NaN
      else Num (Q2R m3 / (Q2R m2 * sqrt (Q2R m2)))%R
  | _, _, _ => NaN
  end.

(** [sp.stats.kurtosis(a)] with its defaults (fisher=True, bias=True):
    m4 / m2**2 - 3. *)
Definition scipy_kurtosis (a : list Z) : fl Q :=
  match np_mean a, moment 2 a, moment 4 a with
  | Num mean, Num m2, Num m4 =>
      if degenerate mean m2 then NaN
      else Num (m4 / (m2 * m2) - 3)%Q
  | _, _, _ => NaN
  end.

(** ** The notebook *)

(** The array of the notebook's first code cell. *)
Definition samples_literal : list Z :=
  [1; 4; 6; 3; 5; 7; 4; 2; 3; 4; 6; 6; 5; 7; 6; 6; 5].

(** What cell 5 prints. *)
Record skewness : Type := mkSkewness {
  sk1 : fl R;
  sk2 : fl R;
  g1 : fl R
}.

Section Notebook.

(** The array given to [np.array]. *)
Variable input : list Z.

(** samples = np.sort(samples) *)
Definition samples : list Z := np_sort input.

(** np.mean(samples) *)
Definition mean : fl Q := np_mean samples.

(** np.bincount(samples).argmax() *)
Definition mode : result Z :=
  c <- bincount samples ;; argmax c.

(** samples[int((len(samples) + 1) / 2)] *)
Definition median : result Z :=
  getitem samples (py_int (truediv (len samples + 1) 2)).

(** max(samples) - min(samples) *)
Definition range : result Z :=
  hi <- py_max samples ;;
  lo <- py_min samples ;;
  Ret (sub64 hi lo).

(** samples[int(3*(len(samples) + 1)/4)] *)
Definition upper_q : result Z :=
  getitem samples (py_int (truediv (3 * (len samples + 1)) 4)).

(** samples[int((len(samples) + 1)/4)] *)
Definition lower_q : result Z :=
  getitem samples (py_int (truediv (len samples + 1) 4)).

(** upper_q - lower_q, the two lookups made in the order of the cell *)
Definition IQR : result Z :=
  u <- upper_q ;;
  l <- lower_q ;;
  Ret (sub64 u l).

(** np.var(samples), np.std(samples) *)
Definition variance : fl Q := np_var samples.
Definition std : fl R := np_std samples.

(** Cell 5 binds mean, mode, median and std, then prints the three
    skewness measures; a failing lookup ends the cell before anything
    is printed.  The int64 mode and median are converted to float64
    where they are subtracted from the mean. *)
Definition skew_cell : result skewness :=
  let mean := toR mean in
  mode <- mode ;;
  median <- median ;;
  let std := std in
  Ret {| sk1 := fdiv (fsub mean (Num (IZR (to_float64 mode)))) std;
         sk2 := fdiv (fmul (Num 3%R)
                           (fsub mean (Num (IZR (to_float64 median))))) std;
         g1 := scipy_skew samples |}.

(** sp.stats.kurtosis(samples) *)
Definition kurtosis : fl Q := scipy_kurtosis samples.

End Notebook.

(** ** The positional rule in the specification's own words

    The specification describes the median position a second time, as a
    rank counted from 1.  These definitions follow that wording and are
    compared with [median] below. *)

(** Entry number [k] of [s], counting from 1. *)
Definition kth_from_1 (s : list Z) (k : Z) : option Z :=
  if 1 <=? k then nth_error s (Z.to_nat (k - 1)) else None.

(** ceil(x / y) for a positive divisor. *)
Definition ceil_div (x y : Z) : Z := - ((- x) / y).

(** "the ceil((n+1)/2)-th element counting from 1" of the sorted values. *)
Definition median_by_rank (l : list Z) : option Z :=
  kth_from_1 (np_sort l) (ceil_div (len l + 1) 2).

(** ** The formulas of the specification

    The specification states mean, variance and kurtosis as formulas over
    the input values.  They are written down here as given and compared
    with what numpy and scipy return on the sorted array. *)

(** sum(values) / n *)
Definition arithmetic_mean (l : list Z) : Q :=
  inject_Z (zsum l) / inject_Z (len l).

(** m_k = (1/n) * sum((x - mean)^k for x in values) *)
Definition central_moment (k : positive) (l : list Z) : Q :=
  qsum (map (fun x => Qpower_positive (inject_Z x - arithmetic_mean l) k) l)
  / inject_Z (len l).

(** sum(f(x) for x in values), written out on its own. *)
Fixpoint sum_over (f : Z -> Q) (l : list Z) : Q :=
  match l with
  | [] => 0%Q
  | x :: r => (f x + sum_over f r)%Q
  end.

(** Arrays on which the float64 results are the exact ones up to
    rounding, and on which bincount's counters fit in any memory: at
    most 2^20 entries, each of magnitude at most 2^20.  The float64 sums
    of such entries are exact. *)
(** The lists [np.array] stores as int64: every entry is a 64-bit
    value. *)
Definition int64_array (l : list Z) : Prop :=
  Forall (fun x => - 2 ^ 63 <= x < 2 ^ 63) l.

(** Entries that float64 holds exactly. *)
Definition representable (l : list Z) : Prop :=
  Forall (fun x => Z.abs x < 2 ^ 53) l.

Definition small (l : list Z) : Prop :=
  len l <= 2 ^ 20 /\ Forall (fun x => Z.abs x <= 2 ^ 20) l.

(** A float result that is the number [q]. *)
Definition exactly (x : fl Q) (q : Q) : Prop :=
  match x with
  | Num y => y == q
  | _ => False
  end.

(** A float result that agrees with the decimal [v] when rounded to ten
    places. *)
Definition close_to (x : fl R) (v : R) : Prop :=
  match x with
  | Num y => (Rabs (y - v) <= 5 / 100000000000)%R
  | _ => False
  end.

(** * Properties *)

(** ** Sorting *)

Lemma insert_perm (x : Z) (a : list Z) : Permutation (insert x a) (x :: a).
Proof.
  induction a as [|y r IH]; simpl.
  - apply Permutation_refl.
  - destruct (x <=? y).
    + apply Permutation_refl.
    + eapply perm_trans; [apply perm_skip, IH | apply perm_swap].
Qed.

Lemma np_sort_perm (a : list Z) : Permutation (np_sort a) a.
Proof.
  induction a as [|x r IH]; simpl.
  - apply perm_nil.
  - eapply perm_trans; [apply insert_perm | apply perm_skip, IH].
Qed.

Lemma insert_sorted (x : Z) (a : list Z) :
  StronglySorted Z.le a -> StronglySorted Z.le (insert x a).
Proof.
  induction 1 as [|y r Hs IH Hall]; simpl.
  - constructor; constructor.
  - destruct (x <=? y) eqn:E.
    + apply Z.leb_le in E. constructor.
      * constructor; assumption.
      * constructor; [assumption|].
        eapply Forall_impl; [|exact Hall]. intros; simpl in *; lia.
    + apply Z.leb_gt in E. constructor; [assumption|].
      eapply Permutation_Forall.
      * apply Permutation_sym, insert_perm.
      * constructor; [lia | assumption].
Qed.

Lemma np_sort_sorted (a : list Z) : StronglySorted Z.le (np_sort a).
Proof.
  induction a as [|x r IH]; simpl.
  - constructor.
  - apply insert_sorted, IH.
Qed.

Lemma len_samples (l : list Z) : len (samples l) = len l.
Proof.
  unfold len, samples. now rewrite (Permutation_length (np_sort_perm l)).
Qed.

Lemma len_nonneg (a : list Z) : 0 <= len a.
Proof. unfold len. lia. Qed.

(** Entries of a sorted array grow with the index. *)
Lemma sorted_nth_le (s : list Z) :
  StronglySorted Z.le s ->
  forall (i j : nat) (a b : Z),
    (i <= j)%nat -> nth_error s i = Some a -> nth_error s j = Some b -> a <= b.
Proof.
  induction 1 as [|y r Hs IH Hall]; intros i j a b Hij Ha Hb.
  - destruct i; discriminate.
  - destruct i as [|i], j as [|j]; simpl in *.
    + injection Ha as <-. injection Hb as <-. lia.
    + injection Ha as <-. apply nth_error_In in Hb.
      rewrite Forall_forall in Hall. now apply Hall.
    + lia.
    + apply (IH i j); [lia | assumption | assumption].
Qed.

(** ** Index expressions *)

(** On a non-negative numerator, [int(x / p)] is the floor of x/p. *)
Lemma py_int_truediv (x : Z) (p : positive) :
  0 <= x -> py_int (truediv x (Z.pos p)) = x / Z.pos p.
Proof.
  intros Hx. unfold py_int, truediv. simpl.
  rewrite Z.mul_1_r. apply Z.quot_div_nonneg; lia.
Qed.

Lemma getitem_inside (a : list Z) (i : Z) :
  0 <= i < len a ->
  exists v, nth_error a (Z.to_nat i) = Some v /\ getitem a i = Ret v.
Proof.
  intros [H0 Hn]. unfold getitem.
  replace (0 <=? i) with true by (symmetry; apply Z.leb_le; lia).
  replace (i <? len a) with true by (symmetry; apply Z.ltb_lt; lia).
  simpl. destruct (nth_error a (Z.to_nat i)) as [v|] eqn:E.
  - exists v. split; reflexivity.
  - apply nth_error_None in E. unfold len in Hn. lia.
Qed.

Lemma getitem_outside (a : list Z) (i : Z) :
  len a <= i -> getitem a i = Raise IndexError.
Proof.
  intros Hn. pose proof (len_nonneg a) as Hl. unfold getitem.
  replace (i <? len a) with false by (symmetry; apply Z.ltb_ge; lia).
  replace (i <? 0) with false by (symmetry; apply Z.ltb_ge; lia).
  now rewrite !andb_false_r.
Qed.

Lemma getitem_Ret (a : list Z) (i v : Z) :
  0 <= i -> getitem a i = Ret v -> nth_error a (Z.to_nat i) = Some v.
Proof.
  intros H0 H. destruct (Z_lt_le_dec i (len a)) as [Hlt|Hge].
  - destruct (getitem_inside a i) as [w [Hw Hg]]; [lia|]. congruence.
  - rewrite getitem_outside in H by assumption. discriminate.
Qed.

(** The three positions looked up by the notebook, as floors. *)
Lemma median_index (l : list Z) :
  py_int (truediv (len (samples l) + 1) 2) = (len l + 1) / 2.
Proof.
  rewrite len_samples. pose proof (len_nonneg l).
  apply py_int_truediv. lia.
Qed.

Lemma lower_index (l : list Z) :
  py_int (truediv (len (samples l) + 1) 4) = (len l + 1) / 4.
Proof.
  rewrite len_samples. pose proof (len_nonneg l).
  apply py_int_truediv. lia.
Qed.

Lemma upper_index (l : list Z) :
  py_int (truediv (3 * (len (samples l) + 1)) 4) = 3 * (len l + 1) / 4.
Proof.
  rewrite len_samples. pose proof (len_nonneg l).
  apply py_int_truediv. lia.
Qed.

(** ** 64-bit results *)

Lemma wrap64_exact (z : Z) : - 2 ^ 63 <= z < 2 ^ 63 -> wrap64 z = z.
Proof.
  intros Hz. unfold wrap64. rewrite Z.mod_small; lia.
Qed.

Lemma sub64_exact (x y : Z) :
  - 2 ^ 63 <= x - y < 2 ^ 63 -> sub64 x y = x - y.
Proof. apply wrap64_exact. Qed.

(** ** Positional median and quartiles *)

(** [0 <= x / d < n], for a quotient the notebook uses as a position. *)
Ltac index_in_range :=
  split; [apply Z.div_pos; lia | apply Z.div_lt_upper_bound; lia].

Lemma samples_In (l : list Z) (i : nat) (v : Z) :
  nth_error (samples l) i = Some v -> In v l.
Proof.
  intros H. apply nth_error_In in H.
  eapply Permutation_in; [apply np_sort_perm | exact H].
Qed.

(** A lookup at a position below the length returns the entry of the
    sorted array at that position. *)
Lemma lookup_samples (l : list Z) (i : Z) :
  0 <= i < len l ->
  exists v, nth_error (samples l) (Z.to_nat i) = Some v /\
            getitem (samples l) i = Ret v /\ In v l.
Proof.
  intros Hi. destruct (getitem_inside (samples l) i) as [v [Hn Hg]].
  - now rewrite len_samples.
  - exists v. repeat split; try assumption. eapply samples_In; eassumption.
Qed.

(** C3, amended: on two or more samples the median printed by the
    notebook is the entry at 0-based position floor((n+1)/2) of the
    ascending arrangement of the input, that is entry number
    floor((n+1)/2) + 1 counting from 1.  It is one of the samples: two
    middle entries are never averaged. *)
Theorem median_positional (l : list Z) :
  2 <= len l ->
  exists (s : list Z) (m : Z),
    Permutation s l /\ StronglySorted Z.le s /\
    nth_error s (Z.to_nat ((len l + 1) / 2)) = Some m /\
    kth_from_1 s ((len l + 1) / 2 + 1) = Some m /\
    median l = Ret m /\ In m l.
Proof.
  intros Hn.
  assert (Hi : 0 <= (len l + 1) / 2 < len l).
  { index_in_range. }
  destruct (lookup_samples l _ Hi) as (m & Hnth & Hget & Hin).
  exists (samples l), m. repeat split.
  - apply np_sort_perm.
  - apply np_sort_sorted.
  - exact Hnth.
  - unfold kth_from_1.
    replace (1 <=? (len l + 1) / 2 + 1) with true
      by (symmetry; apply Z.leb_le; lia).
    now replace ((len l + 1) / 2 + 1 - 1) with ((len l + 1) / 2) by lia.
  - unfold median. now rewrite median_index.
  - exact Hin.
Qed.

Lemma median_positional_witness :
  exists (s : list Z) (m : Z),
    Permutation s [4; 1; 3; 2] /\ StronglySorted Z.le s /\
    nth_error s (Z.to_nat ((len [4; 1; 3; 2] + 1) / 2)) = Some m /\
    kth_from_1 s ((len [4; 1; 3; 2] + 1) / 2 + 1) = Some m /\
    median [4; 1; 3; 2] = Ret m /\ In m [4; 1; 3; 2].
Proof.
  apply (median_positional [4; 1; 3; 2]). vm_compute. discriminate.
Defined.

(** C3 as written fails twice: a single sample has no entry at position
    floor((1+1)/2) = 1, and for an odd count the entry at 0-based position
    floor((n+1)/2) is not entry number ceil((n+1)/2) counting from 1. *)
Lemma median_positional_counterexample :
  median [7] = Raise IndexError /\
  median [1; 2; 3] = Ret 3 /\
  median_by_rank [1; 2; 3] = Some 2.
Proof. repeat split. Qed.

(** C4, amended: the lower quartile is the entry at 0-based position
    floor((n+1)/4) of the ascending arrangement for every non-empty
    input; from four samples on, the upper quartile is the entry at
    position floor(3(n+1)/4), not below the lower one, and on an int64
    array the printed IQR is their difference as an int64: the exact
    difference whenever that is below 2^63.  Both quartiles are samples,
    nothing is interpolated. *)
Theorem quartiles_positional (l : list Z) :
  1 <= len l ->
  exists (s : list Z) (q1 : Z),
    Permutation s l /\ StronglySorted Z.le s /\
    nth_error s (Z.to_nat ((len l + 1) / 4)) = Some q1 /\
    lower_q l = Ret q1 /\ In q1 l /\
    (4 <= len l ->
     exists q3 : Z,
       nth_error s (Z.to_nat (3 * (len l + 1) / 4)) = Some q3 /\
       upper_q l = Ret q3 /\ In q3 l /\
       0 <= q3 - q1 /\
       (int64_array l ->
        IQR l = Ret (sub64 q3 q1) /\
        (q3 - q1 < 2 ^ 63 -> IQR l = Ret (q3 - q1)))).
Proof.
  intros Hn.
  assert (H1 : 0 <= (len l + 1) / 4 < len l).
  { index_in_range. }
  destruct (lookup_samples l _ H1) as (q1 & Hnth1 & Hget1 & Hin1).
  assert (Hlow : lower_q l = Ret q1).
  { unfold lower_q. now rewrite lower_index. }
  exists (samples l), q1. repeat split.
  - apply np_sort_perm.
  - apply np_sort_sorted.
  - exact Hnth1.
  - exact Hlow.
  - exact Hin1.
  - intros H4.
    assert (H3 : 0 <= 3 * (len l + 1) / 4 < len l).
    { index_in_range. }
    destruct (lookup_samples l _ H3) as (q3 & Hnth3 & Hget3 & Hin3).
    assert (Hup : upper_q l = Ret q3).
    { unfold upper_q. now rewrite upper_index. }
    assert (HI : IQR l = Ret (sub64 q3 q1)).
    { unfold IQR. rewrite Hup, Hlow. reflexivity. }
    assert (Hle : q1 <= q3).
    { refine (sorted_nth_le _ (np_sort_sorted l) _ _ _ _ _ Hnth1 Hnth3).
      apply Z2Nat.inj_le; try (apply Z.div_pos; lia).
      apply Z.div_le_mono; lia. }
    exists q3. repeat split; try assumption; try lia.
    intros Hfit. rewrite HI, sub64_exact; [reflexivity | lia].
Qed.

Lemma quartiles_positional_witness :
  exists (s : list Z) (q1 q3 : Z),
    Permutation s samples_literal /\ StronglySorted Z.le s /\
    nth_error s 4 = Some q1 /\ nth_error s 13 = Some q3 /\
    lower_q samples_literal = Ret q1 /\
    upper_q samples_literal = Ret q3 /\
    IQR samples_literal = Ret (q3 - q1).
Proof.
  destruct (quartiles_positional samples_literal)
    as (s & q1 & Hp & Hs & Hn1 & Hl & _ & Hup).
  - vm_compute. discriminate.
  - destruct Hup as (q3 & Hn3 & Hu & _ & _ & Hi).
    + vm_compute. discriminate.
    + exists s, q1, q3. repeat split; try assumption.
      apply Hi.
      { unfold samples_literal. repeat constructor; vm_compute; discriminate. }
      assert (E3 : q3 = 6) by (vm_compute in Hu; congruence).
      assert (E1 : q1 = 4) by (vm_compute in Hl; congruence).
      rewrite E3, E1. reflexivity.
Defined.

(** C4 as written fails below four samples: position floor(3(n+1)/4) is
    then the length itself, so neither the upper quartile nor the IQR has
    a value.  And the int64 difference of the quartiles wraps around when
    the quartiles are 2^63 or more apart. *)
Lemma quartiles_positional_counterexample :
  upper_q [1; 2; 3] = Raise IndexError /\ IQR [1; 2; 3] = Raise IndexError /\
  upper_q [- 2 ^ 63; - 2 ^ 63; 2 ^ 63 - 1; 2 ^ 63 - 1] = Ret (2 ^ 63 - 1) /\
  lower_q [- 2 ^ 63; - 2 ^ 63; 2 ^ 63 - 1; 2 ^ 63 - 1] = Ret (- 2 ^ 63) /\
  IQR [- 2 ^ 63; - 2 ^ 63; 2 ^ 63 - 1; 2 ^ 63 - 1] = Ret (-1).
Proof. repeat split; reflexivity. Qed.

(** C9: whenever the three lookups succeed, the lower quartile is at most
    the median and the median at most the upper quartile. *)
Theorem quartiles_ordered (l : list Z) (q1 m q3 : Z) :
  lower_q l = Ret q1 -> median l = Ret m -> upper_q l = Ret q3 ->
  q1 <= m <= q3.
Proof.
  unfold lower_q, median, upper_q.
  rewrite lower_index, median_index, upper_index.
  pose proof (len_nonneg l) as Hl.
  intros H1 H2 H3.
  apply getitem_Ret in H1; [|apply Z.div_pos; lia].
  apply getitem_Ret in H2; [|apply Z.div_pos; lia].
  apply getitem_Ret in H3; [|apply Z.div_pos; lia].
  assert (Hs := np_sort_sorted l). fold (samples l) in Hs.
  split.
  - refine (sorted_nth_le _ Hs _ _ _ _ _ H1 H2).
    apply Z2Nat.inj_le; try (apply Z.div_pos; lia).
    apply Z.div_le_lower_bound; [lia|].
    pose proof (Z.mul_div_le (len l + 1) 4 ltac:(lia)). lia.
  - refine (sorted_nth_le _ Hs _ _ _ _ _ H2 H3).
    apply Z2Nat.inj_le; try (apply Z.div_pos; lia).
    apply Z.div_le_lower_bound; [lia|].
    pose proof (Z.mul_div_le (len l + 1) 2 ltac:(lia)). lia.
Qed.

Lemma quartiles_ordered_witness : 4 <= 5 <= 6.
Proof.
  apply (quartiles_ordered samples_literal 4 5 6); reflexivity.
Defined.

(** C10: a non-empty input does not keep the lookups in bounds.  With one
    to three samples the upper-quartile position is the length of the
    array and the lookup raises IndexError; with a single sample the same
    holds for the median. *)
Theorem lookups_out_of_bounds (l : list Z) :
  1 <= len l <= 3 ->
  py_int (truediv (3 * (len (samples l) + 1)) 4) = len (samples l) /\
  upper_q l = Raise IndexError /\
  (len l = 1 ->
   py_int (truediv (len (samples l) + 1) 2) = len (samples l) /\
   median l = Raise IndexError).
Proof.
  intros Hn.
  assert (Hu : 3 * (len l + 1) / 4 = len l).
  { assert (C : len l = 1 \/ len l = 2 \/ len l = 3) by lia.
    destruct C as [-> | [-> | ->]]; reflexivity. }
  split; [|split].
  - now rewrite upper_index, len_samples.
  - unfold upper_q. rewrite upper_index. apply getitem_outside.
    rewrite len_samples. lia.
  - intros H1.
    assert (Hm : (len l + 1) / 2 = len l) by (rewrite H1; reflexivity).
    split.
    + now rewrite median_index, len_samples.
    + unfold median. rewrite median_index. apply getitem_outside.
      rewrite len_samples. lia.
Qed.

Lemma lookups_out_of_bounds_witness :
  upper_q [2; 9; 4] = Raise IndexError /\ median [7] = Raise IndexError.
Proof.
  split.
  - apply (lookups_out_of_bounds [2; 9; 4]). vm_compute.
    split; discriminate.
  - apply (lookups_out_of_bounds [7]).
    + vm_compute. split; discriminate.
    + reflexivity.
Defined.

(** ** Empty input *)

(** C7, amended: on the empty array the lookups of median and quartiles
    (and with them the IQR) raise IndexError, the range raises
    ValueError, the mode raises TypeError and the skewness cell stops
    there, and mean, variance, standard deviation and kurtosis are
    NaN. *)
Theorem empty_input :
  median [] = Raise IndexError /\
  lower_q [] = Raise IndexError /\
  upper_q [] = Raise IndexError /\
  IQR [] = Raise IndexError /\
  mode [] = Raise TypeError /\
  range [] = Raise ValueError /\
  skew_cell [] = Raise TypeError /\
  mean [] = NaN /\
  variance [] = NaN /\
  std [] = NaN /\
  kurtosis [] = NaN.
Proof. repeat split. Qed.

(** C7 as written fails: nothing named EmptyInputError is raised, and the
    mean, the variance and the standard deviation of the empty array are
    NaN values, not failures. *)
Lemma empty_input_counterexample :
  mean [] = NaN /\ variance [] = NaN /\ std [] = NaN.
Proof. repeat split. Qed.

(** ** Mode *)

Lemma fold_max_ge (r : list Z) :
  forall x, x <= fold_left Z.max r x /\
            Forall (fun v => v <= fold_left Z.max r x) r.
Proof.
  induction r as [|y r IH]; intros x; simpl.
  - split; [lia | constructor].
  - destruct (IH (Z.max x y)) as [H1 H2]. split; [lia|].
    constructor; [lia | exact H2].
Qed.

Lemma fold_max_le (r : list Z) (B : Z) :
  forall x, x <= B -> Forall (fun v => v <= B) r -> fold_left Z.max r x <= B.
Proof.
  induction r as [|y r IH]; intros x Hx Hr; simpl.
  - exact Hx.
  - inversion Hr; subst. apply IH; [lia | assumption].
Qed.

Lemma amax_le (a : list Z) (B : Z) :
  a <> [] -> Forall (fun v => v <= B) a -> amax a <= B.
Proof.
  destruct a as [|x r]; [congruence | intros _ Ha].
  inversion Ha; subst. simpl. now apply fold_max_le.
Qed.

Lemma bins_bound (a : list Z) (v : Z) :
  In v a -> 0 <= v -> (Z.to_nat v < bins a)%nat.
Proof.
  destruct a as [|x r]; intros Hin Hv; [contradiction|].
  simpl. destruct (fold_max_ge r x) as [H1 H2].
  rewrite Forall_forall in H2.
  destruct Hin as [<- | Hin]; [lia|]. specialize (H2 _ Hin). lia.
Qed.

(** [argmax_from] returns the running best unless a strictly larger entry
    follows; in that case it returns the first position of the largest
    one. *)
Lemma argmax_from_spec (r : list Z) :
  forall i best besti,
    (argmax_from r i best besti = besti /\ Forall (fun c => c <= best) r) \/
    (exists (j : nat) (c : Z),
        argmax_from r i best besti = i + Z.of_nat j /\
        nth_error r j = Some c /\ best < c /\
        Forall (fun c' => c' <= c) r /\
        (forall j' c', (j' < j)%nat -> nth_error r j' = Some c' -> c' < c)).
Proof.
  induction r as [|c r IH]; intros i best besti; simpl.
  - left. split; [reflexivity | constructor].
  - destruct (best <? c) eqn:E.
    + apply Z.ltb_lt in E. right.
      destruct (IH (i + 1) c i) as [[Hk Hall] | (j & c2 & Hk & Hn & Hlt & Hall & Hfst)].
      * exists O, c. repeat split; simpl; try assumption.
        -- rewrite Hk. lia.
        -- constructor; [lia | assumption].
        -- intros j' c' Hj. lia.
      * exists (S j), c2. repeat split; simpl; try assumption.
        -- rewrite Hk. lia.
        -- lia.
        -- constructor; [lia | assumption].
        -- intros [|j'] c' Hj Hc'; simpl in Hc'.
           ++ injection Hc' as <-. exact Hlt.
           ++ apply (Hfst j'); [lia | assumption].
    + apply Z.ltb_ge in E.
      destruct (IH (i + 1) best besti) as [[Hk Hall] | (j & c2 & Hk & Hn & Hlt & Hall & Hfst)].
      * left. split; [assumption | constructor; assumption].
      * right. exists (S j), c2. repeat split; simpl; try assumption.
        -- rewrite Hk. lia.
        -- constructor; [lia | assumption].
        -- intros [|j'] c' Hj Hc'; simpl in Hc'.
           ++ injection Hc' as <-. lia.
           ++ apply (Hfst j'); [lia | assumption].
Qed.

(** On a non-empty array [argmax] is the first position of the maximum. *)
Lemma argmax_spec (a : list Z) :
  a <> [] ->
  exists (k : nat) (c : Z),
    argmax a = Ret (Z.of_nat k) /\ nth_error a k = Some c /\
    (forall j c', nth_error a j = Some c' -> c' <= c) /\
    (forall j c', (j < k)%nat -> nth_error a j = Some c' -> c' < c).
Proof.
  destruct a as [|c0 r]; [congruence | intros _]. simpl.
  destruct (argmax_from_spec r 1 c0 0)
    as [[Hk Hall] | (j & c & Hk & Hn & Hlt & Hall & Hfst)].
  - exists O, c0. rewrite Hk. repeat split.
    + intros [|j] c' Hc'; simpl in Hc'.
      * injection Hc' as <-. lia.
      * apply nth_error_In in Hc'. rewrite Forall_forall in Hall.
        now apply Hall.
    + intros j c' Hj. lia.
  - exists (S j), c. rewrite Hk. repeat split.
    + f_equal. lia.
    + exact Hn.
    + intros [|j'] c' Hc'; simpl in Hc'.
      * injection Hc' as <-. lia.
      * apply nth_error_In in Hc'. rewrite Forall_forall in Hall.
        now apply Hall.
    + intros [|j'] c' Hj Hc'; simpl in Hc'.
      * injection Hc' as <-. exact Hlt.
      * apply (Hfst j'); [lia | assumption].
Qed.

Lemma count_samples (l : list Z) (v : Z) : count v (samples l) = count v l.
Proof.
  unfold count, samples. f_equal.
  apply Permutation_count_occ. apply np_sort_perm.
Qed.

Lemma count_nonneg (v : Z) (a : list Z) : 0 <= count v a.
Proof. unfold count. lia. Qed.

Lemma count_pos_In (v : Z) (a : list Z) : 0 < count v a <-> In v a.
Proof.
  unfold count. rewrite (count_occ_In Z.eq_dec a v). lia.
Qed.

Lemma no_negative (a : list Z) :
  Forall (fun v => 0 <= v) a -> existsb (fun v => v <? 0) a = false.
Proof.
  induction 1 as [|x r Hx _ IH]; simpl; [reflexivity|].
  rewrite IH. replace (x <? 0) with false; [reflexivity|].
  symmetry. apply Z.ltb_ge. exact Hx.
Qed.

Lemma nth_error_bincount (a : list Z) (j : nat) (c : Z) :
  nth_error (map (fun i => count (Z.of_nat i) a) (seq 0 (bins a))) j = Some c ->
  (j < bins a)%nat /\ c = count (Z.of_nat j) a.
Proof.
  intros H.
  assert (Hj : (j < bins a)%nat).
  { assert (Hs : nth_error (map (fun i => count (Z.of_nat i) a) (seq 0 (bins a))) j
                 <> None) by congruence.
    apply nth_error_Some in Hs. now rewrite length_map, length_seq in Hs. }
  split; [exact Hj|].
  rewrite nth_error_map, nth_error_seq in H.
  apply Nat.ltb_lt in Hj. rewrite Hj in H. simpl in H. congruence.
Qed.

Lemma bincount_nth (a : list Z) (j : nat) :
  (j < bins a)%nat ->
  nth_error (map (fun i => count (Z.of_nat i) a) (seq 0 (bins a))) j
  = Some (count (Z.of_nat j) a).
Proof.
  intros Hj. rewrite nth_error_map, nth_error_seq.
  apply Nat.ltb_lt in Hj. now rewrite Hj.
Qed.

(** The first position of the largest count is the smallest of the most
    frequent values. *)
Lemma bincount_argmax (a : list Z) :
  a <> [] -> Forall (fun v => 0 <= v) a -> amax a + 1 < 2 ^ 60 ->
  exists m : Z,
    (c <- bincount a ;; argmax c) = Ret m /\ In m a /\
    (forall v, count v a <= count m a) /\
    (forall v, count v a = count m a -> m <= v).
Proof.
  intros Hne Hpos Hsize.
  assert (Hbc : bincount a
                = Ret (map (fun i => count (Z.of_nat i) a) (seq 0 (bins a)))).
  { unfold bincount. destruct a as [|y r]; [congruence|].
    rewrite (no_negative _ Hpos).
    replace (2 ^ 60 <=? amax (y :: r) + 1) with false; [reflexivity|].
    symmetry. apply Z.leb_gt. exact Hsize. }
  destruct a as [|x0 a0] eqn:Ea; [congruence|]. rewrite <- Ea in *.
  assert (Hx0 : In x0 a) by (rewrite Ea; now left).
  assert (Hx0' : 0 <= x0) by (rewrite Forall_forall in Hpos; now apply Hpos).
  pose proof (bins_bound _ _ Hx0 Hx0') as Hb.
  set (c := map (fun i => count (Z.of_nat i) a) (seq 0 (bins a))).
  assert (Hc : c <> []).
  { intros E. apply (f_equal (@length Z)) in E.
    unfold c in E. rewrite length_map, length_seq in E. simpl in E. lia. }
  destruct (argmax_spec c Hc) as (k & ck & Hk & Hnk & Hmax & Hfst).
  apply nth_error_bincount in Hnk. destruct Hnk as [Hkb ->].
  assert (Hall : forall v, count v a <= count (Z.of_nat k) a).
  { intros v. destruct (in_dec Z.eq_dec v a) as [Hin | Hnin].
    - assert (Hv : 0 <= v) by (rewrite Forall_forall in Hpos; now apply Hpos).
      pose proof (bins_bound _ _ Hin Hv) as Hvb.
      specialize (Hmax (Z.to_nat v) _ (bincount_nth _ _ Hvb)).
      now rewrite Z2Nat.id in Hmax by assumption.
    - assert (count v a = 0).
      { pose proof (count_nonneg v a).
        destruct (Z.eq_dec (count v a) 0) as [E|E]; [exact E|].
        exfalso. apply Hnin. apply count_pos_In. lia. }
      pose proof (count_nonneg (Z.of_nat k) a). lia. }
  assert (Hin : In (Z.of_nat k) a).
  { apply count_pos_In. apply count_pos_In in Hx0. specialize (Hall x0). lia. }
  exists (Z.of_nat k). repeat split.
  - rewrite Hbc. simpl. exact Hk.
  - exact Hin.
  - exact Hall.
  - intros v Hv.
    destruct (Z_lt_le_dec v (Z.of_nat k)) as [Hlt | Hge]; [exfalso | exact Hge].
    assert (Hvin : In v a).
    { apply count_pos_In. rewrite Hv. now apply count_pos_In. }
    assert (H0 : 0 <= v) by (rewrite Forall_forall in Hpos; now apply Hpos).
    pose proof (bins_bound _ _ Hvin H0) as Hvb.
    assert (Hjk : (Z.to_nat v < k)%nat) by lia.
    specialize (Hfst (Z.to_nat v) _ Hjk (bincount_nth _ _ Hvb)).
    rewrite Z2Nat.id in Hfst by assumption. lia.
Qed.

Lemma samples_nonempty (l : list Z) : l <> [] -> samples l <> [].
Proof.
  intros Hne E. apply Hne.
  apply Permutation_nil. rewrite <- E. apply np_sort_perm.
Qed.

Lemma samples_Forall (P : Z -> Prop) (l : list Z) :
  Forall P l -> Forall P (samples l).
Proof.
  intros H. eapply Permutation_Forall; [|exact H].
  apply Permutation_sym. apply np_sort_perm.
Qed.

(** Entries up to [B] keep the counters of bincount within the size
    limit. *)
Lemma samples_counters (B : Z) (l : list Z) :
  l <> [] -> B + 1 < 2 ^ 60 -> Forall (fun v => v <= B) l ->
  amax (samples l) + 1 < 2 ^ 60.
Proof.
  intros Hne HB Hl.
  pose proof (amax_le (samples l) B (samples_nonempty l Hne)
                (samples_Forall _ l Hl)). lia.
Qed.

Lemma Forall_between (lo hi : Z) (l : list Z) :
  Forall (fun v => lo <= v <= hi) l ->
  Forall (fun v => lo <= v) l /\ Forall (fun v => v <= hi) l.
Proof.
  intros H. split; (eapply Forall_impl; [|exact H]); intros a Ha;
    simpl in Ha; lia.
Qed.

(** C6, amended: on a non-empty array of integers between 0 and 2^20
    the mode printed by the notebook is a sample whose number of
    occurrences is the largest, and among the values with that number of
    occurrences it is the smallest. *)
Theorem mode_most_frequent (l : list Z) :
  l <> [] -> Forall (fun v => 0 <= v <= 2 ^ 20) l ->
  exists m : Z,
    mode l = Ret m /\ In m l /\
    (forall v, count v l <= count m l) /\
    (forall v, count v l = count m l -> m <= v).
Proof.
  intros Hne Hrange. destruct (Forall_between _ _ l Hrange) as [Hpos Hle].
  destruct (bincount_argmax (samples l) (samples_nonempty l Hne)
              (samples_Forall _ l Hpos)
              (samples_counters (2 ^ 20) l Hne eq_refl Hle))
    as (m & Hm & Hin & Hmax & Hmin).
  exists m. repeat split.
  - exact Hm.
  - eapply Permutation_in; [apply np_sort_perm | exact Hin].
  - intros v. rewrite <- (count_samples l v), <- (count_samples l m).
    apply Hmax.
  - intros v Hv. apply Hmin.
    now rewrite (count_samples l v), (count_samples l m).
Qed.

Lemma mode_most_frequent_witness :
  exists m : Z,
    mode [1; 1; 2; 2] = Ret m /\ In m [1; 1; 2; 2] /\
    (forall v, count v [1; 1; 2; 2] <= count m [1; 1; 2; 2]) /\
    (forall v, count v [1; 1; 2; 2] = count m [1; 1; 2; 2] -> m <= v).
Proof.
  apply (mode_most_frequent [1; 1; 2; 2]).
  - discriminate.
  - repeat constructor; discriminate.
Defined.

(** The tie between 1 and 2 goes to 1. *)
Example mode_tie : mode [1; 1; 2; 2] = Ret 1.
Proof. reflexivity. Qed.

(** C6 as written fails on an array with a negative entry, and on one
    with an entry so large that its counters pass the largest array
    size: bincount refuses both and no mode is produced. *)
Lemma mode_most_frequent_counterexample :
  mode [-1] = Raise ValueError /\ mode [3; -2; 3] = Raise ValueError /\
  mode [2 ^ 62; 1] = Raise ValueError.
Proof. repeat split; reflexivity. Qed.

(** ** Mean, variance and moments *)

Open Scope Q_scope.

Lemma qsum_perm (a b : list Q) : Permutation a b -> qsum a == qsum b.
Proof.
  induction 1 as [| x a b _ IH | x y a | a b c _ IH1 _ IH2]; simpl.
  - reflexivity.
  - now rewrite IH.
  - ring.
  - now rewrite IH1.
Qed.

(** Below 2^53 the conversion to float64 changes nothing. *)
Lemma to_float64_exact (x : Z) : (Z.abs x < 2 ^ 53)%Z -> to_float64 x = x.
Proof.
  intros Hx. unfold to_float64.
  replace (Z.max 0 (Z.log2 (Z.abs x) - 52)) with 0%Z; [reflexivity|].
  destruct (Z.eq_dec (Z.abs x) 0) as [E | E].
  - rewrite E. reflexivity.
  - assert (Hlog : (Z.log2 (Z.abs x) < 53)%Z).
    { apply Z.log2_lt_pow2; lia. }
    lia.
Qed.

Lemma small_representable (l : list Z) : small l -> representable l.
Proof.
  intros [_ H]. unfold representable.
  eapply Forall_impl; [|exact H]. intros a Ha. simpl in Ha.
  assert ((2 ^ 20 < 2 ^ 53)%Z) by reflexivity. lia.
Qed.

Lemma samples_representable (l : list Z) :
  representable l -> representable (samples l).
Proof. apply samples_Forall. Qed.

Lemma as_float_exact (a : list Z) :
  representable a -> as_float a = map inject_Z a.
Proof.
  intros Ha. unfold as_float. apply map_ext_in. intros x Hx.
  unfold representable in Ha. rewrite Forall_forall in Ha.
  now rewrite to_float64_exact by (apply Ha; exact Hx).
Qed.

Lemma deviations_exact (k : positive) (m : Q) (a : list Z) :
  representable a ->
  deviations k m a = map (fun x => Qpower_positive (inject_Z x - m) k) a.
Proof.
  intros Ha. unfold deviations. apply map_ext_in. intros x Hx.
  unfold representable in Ha. rewrite Forall_forall in Ha.
  now rewrite to_float64_exact by (apply Ha; exact Hx).
Qed.

Lemma qsum_inject (a : list Z) :
  qsum (map inject_Z a) == inject_Z (zsum a).
Proof.
  induction a as [|x r IH]; simpl.
  - reflexivity.
  - rewrite IH, inject_Z_plus. reflexivity.
Qed.

Lemma qsum_as_float (a : list Z) :
  representable a -> qsum (as_float a) == inject_Z (zsum a).
Proof.
  intros Ha. rewrite (as_float_exact a Ha). apply qsum_inject.
Qed.

Lemma fdivQ_Num (x y : Q) : ~ y == 0 -> fdivQ x y = Num (x / y).
Proof.
  intros Hy. unfold fdivQ.
  destruct (Qeq_bool y 0) eqn:E; [|reflexivity].
  apply Qeq_bool_iff in E. contradiction.
Qed.

Lemma inject_len_nonzero (l : list Z) : l <> [] -> ~ inject_Z (len l) == 0.
Proof.
  intros Hne E. unfold Qeq in E. simpl in E.
  destruct l; [congruence|]. unfold len in E. simpl length in E. lia.
Qed.

Lemma inject_len_pos (l : list Z) : l <> [] -> 0 < inject_Z (len l).
Proof.
  intros Hne. unfold Qlt. simpl.
  destruct l; [congruence|]. unfold len. simpl length. lia.
Qed.

Lemma np_mean_Num (a : list Z) :
  a <> [] -> np_mean a = Num (qsum (as_float a) / inject_Z (len a)).
Proof.
  intros Hne. unfold np_mean, mean_of, as_float.
  rewrite length_map. fold (len a). fold (as_float a).
  apply fdivQ_Num. now apply inject_len_nonzero.
Qed.

Lemma np_mean_samples (l : list Z) :
  l <> [] -> representable l ->
  exists m : Q, np_mean (samples l) = Num m /\ m == arithmetic_mean l.
Proof.
  intros Hne Hr. eexists. split.
  - apply np_mean_Num. now apply samples_nonempty.
  - unfold arithmetic_mean. rewrite len_samples, <- (qsum_as_float l Hr).
    apply Qmult_comp; [|reflexivity].
    apply qsum_perm. unfold as_float. apply Permutation_map, np_sort_perm.
Qed.

Lemma qsum_deviations_comp (k : positive) (m m' : Q) (a : list Z) :
  m == m' -> qsum (deviations k m a) == qsum (deviations k m' a).
Proof.
  intros Hm. induction a as [|x r IH]; simpl.
  - reflexivity.
  - rewrite IH, Hm. reflexivity.
Qed.

(** The sum of the deviations over the sorted array, taken from the mean
    numpy computed, is the one of the formula over the input. *)
Lemma qsum_deviations_samples (k : positive) (m : Q) (l : list Z) :
  representable l -> m == arithmetic_mean l ->
  qsum (deviations k m (samples l)) / inject_Z (len l) == central_moment k l.
Proof.
  intros Hr Hm. unfold central_moment.
  apply Qmult_comp; [|reflexivity].
  rewrite (qsum_deviations_comp k _ _ (samples l) Hm).
  rewrite (deviations_exact _ _ _ (samples_representable l Hr)).
  apply qsum_perm. apply Permutation_map, np_sort_perm.
Qed.

Lemma moment_samples (k : positive) (l : list Z) :
  l <> [] -> representable l ->
  exists q : Q, moment k (samples l) = Num q /\ q == central_moment k l.
Proof.
  intros Hne Hr. destruct (np_mean_samples l Hne Hr) as (m & Hmean & Hm).
  unfold moment. rewrite Hmean. unfold mean_of, deviations.
  rewrite length_map. fold (len (samples l)). rewrite len_samples.
  eexists. split.
  - apply fdivQ_Num. now apply inject_len_nonzero.
  - now apply qsum_deviations_samples.
Qed.

Lemma np_var_samples (l : list Z) :
  l <> [] -> representable l ->
  exists v : Q, np_var (samples l) = Num v /\ v == central_moment 2 l.
Proof.
  intros Hne Hr. destruct (np_mean_samples l Hne Hr) as (m & Hmean & Hm).
  unfold np_var, np_var_ddof. rewrite Hmean, len_samples.
  replace (Z.max (len l - 0) 0) with (len l)
    by (pose proof (len_nonneg l); lia).
  eexists. split.
  - apply fdivQ_Num. now apply inject_len_nonzero.
  - now apply qsum_deviations_samples.
Qed.

Lemma qsum_nonneg (a : list Q) : Forall (fun q => 0 <= q) a -> 0 <= qsum a.
Proof.
  induction 1 as [|x r Hx _ IH]; simpl.
  - apply Qle_refl.
  - replace 0%Q with (0 + 0)%Q by reflexivity. now apply Qplus_le_compat.
Qed.

Lemma Qsquare (q : Q) : Qpower_positive q 2 == q * q.
Proof. reflexivity. Qed.

Lemma Qsquare_nonneg (q : Q) : 0 <= Qpower_positive q 2.
Proof. exact (Qsqr_nonneg q). Qed.

Lemma central_moment_2_nonneg (l : list Z) : 0 <= central_moment 2 l.
Proof.
  unfold central_moment, Qdiv. apply Qmult_le_0_compat.
  - apply qsum_nonneg. apply Forall_forall. intros q Hq.
    apply in_map_iff in Hq. destruct Hq as (x & <- & _).
    apply Qsquare_nonneg.
  - apply Qinv_le_0_compat. unfold Qle. simpl. pose proof (len_nonneg l). lia.
Qed.

Lemma fsqrt_Num (x : fl Q) (v : Q) :
  x = Num v -> 0 <= v -> fsqrt x = Num (sqrt (Q2R v)).
Proof.
  intros -> Hv. simpl. apply Qle_bool_iff in Hv. now rewrite Hv.
Qed.

Lemma sum_over_qsum (f : Z -> Q) (l : list Z) :
  sum_over f l = qsum (map f l).
Proof.
  induction l as [|x r IH]; simpl; [reflexivity | now rewrite IH].
Qed.

(** C5, amended: on a non-empty small input the variance printed by the
    notebook is sum((x - mean)^2 for x in values) / n, with n and not
    n - 1 as the divisor, and the standard deviation is its square
    root. *)
Theorem variance_population (l : list Z) :
  l <> [] -> small l ->
  exists v : Q,
    variance l = Num v /\
    v == sum_over (fun x => (inject_Z x - arithmetic_mean l) *
                            (inject_Z x - arithmetic_mean l)) l
         / inject_Z (len l) /\
    std l = Num (sqrt (Q2R v)).
Proof.
  intros Hne Hs.
  destruct (np_var_samples l Hne (small_representable l Hs)) as (v & Hv & Hvm).
  exists v. split; [exact Hv | split].
  - rewrite Hvm, sum_over_qsum. unfold central_moment. reflexivity.
  - unfold std, np_std. apply fsqrt_Num; [exact Hv|].
    rewrite Hvm. apply central_moment_2_nonneg.
Qed.

Lemma variance_population_witness :
  exists v : Q,
    variance samples_literal = Num v /\
    v == sum_over (fun x =>
                 (inject_Z x - arithmetic_mean samples_literal) *
                 (inject_Z x - arithmetic_mean samples_literal))
               samples_literal
         / inject_Z (len samples_literal) /\
    std samples_literal = Num (sqrt (Q2R v)).
Proof.
  apply (variance_population samples_literal).
  - discriminate.
  - split.
    + vm_compute. discriminate.
    + unfold samples_literal. repeat constructor; vm_compute; discriminate.
Defined.

(** C5 as written fails on large entries: 2^53 and 2^53 + 1 are the same
    float64, so the variance printed for these two samples is 0 while
    the formula gives 1/4. *)
Lemma variance_population_counterexample :
  exactly (variance [2 ^ 53; 2 ^ 53 + 1]%Z) 0 /\
  sum_over (fun x =>
       (inject_Z x - arithmetic_mean [2 ^ 53; 2 ^ 53 + 1]%Z) *
       (inject_Z x - arithmetic_mean [2 ^ 53; 2 ^ 53 + 1]%Z))
    [2 ^ 53; 2 ^ 53 + 1]%Z
  / inject_Z (len [2 ^ 53; 2 ^ 53 + 1]%Z) == 1 # 4.
Proof.
  split.
  - vm_compute. reflexivity.
  - vm_compute. reflexivity.
Qed.

(** ** Kurtosis *)

Lemma qsum_pos (a : list Q) (q : Q) :
  Forall (fun x => 0 <= x) a -> In q a -> 0 < q -> 0 < qsum a.
Proof.
  induction 1 as [|x r Hx Hr IH]; intros Hin Hq; simpl.
  - contradiction.
  - destruct Hin as [-> | Hin].
    + apply Qlt_le_trans with (q + 0).
      * now rewrite Qplus_0_r.
      * apply Qplus_le_compat; [apply Qle_refl | now apply qsum_nonneg].
    + apply Qlt_le_trans with (0 + qsum r).
      * rewrite Qplus_0_l. now apply IH.
      * apply Qplus_le_compat; [exact Hx | apply Qle_refl].
Qed.

Lemma Qsquare_pos (q : Q) : ~ q == 0 -> 0 < Qpower_positive q 2.
Proof.
  intros Hq. rewrite Qsquare.
  destruct (Qlt_le_dec 0 q) as [Hp | Hn].
  - now apply Qmult_lt_0_compat.
  - assert (Hlt : q < 0) by (apply Qle_lteq in Hn; destruct Hn; [assumption | contradiction]).
    setoid_replace (q * q) with ((- q) * (- q)) by ring.
    apply Qmult_lt_0_compat; apply Qopp_lt_compat in Hlt; exact Hlt.
Qed.

(** Two different samples leave a positive second moment. *)
Lemma central_moment_2_pos (l : list Z) :
  (exists a b : Z, In a l /\ In b l /\ a <> b) -> 0 < central_moment 2 l.
Proof.
  intros (a & b & Ha & Hb & Hab).
  assert (Hx : exists x, In x l /\ ~ inject_Z x - arithmetic_mean l == 0).
  { destruct (Qeq_dec (inject_Z a - arithmetic_mean l) 0) as [Ea | Na].
    - exists b. split; [exact Hb|]. intros Eb. apply Hab.
      assert (E : inject_Z a == inject_Z b).
      { setoid_replace (inject_Z a) with (arithmetic_mean l)
          by (rewrite <- (Qplus_0_l (arithmetic_mean l)), <- Ea; ring).
        setoid_replace (inject_Z b) with (arithmetic_mean l)
          by (rewrite <- (Qplus_0_l (arithmetic_mean l)), <- Eb; ring).
        reflexivity. }
      unfold Qeq in E. simpl in E. lia.
    - exists a. split; assumption. }
  destruct Hx as (x & Hx & Hnz).
  assert (Hne : l <> []) by (intros ->; contradiction).
  unfold central_moment, Qdiv. apply Qmult_lt_0_compat.
  - eapply qsum_pos.
    + apply Forall_forall. intros q Hq.
      apply in_map_iff in Hq. destruct Hq as (y & <- & _).
      apply Qsquare_nonneg.
    + apply in_map_iff. exists x. split; [reflexivity | exact Hx].
    + now apply Qsquare_pos.
  - apply Qinv_lt_0_compat. now apply inject_len_pos.
Qed.

Lemma zsum_bounds (lo hi : Z) (l : list Z) :
  (forall x, In x l -> (lo <= x <= hi)%Z) ->
  (lo * len l <= zsum l <= hi * len l)%Z.
Proof.
  induction l as [|x r IH]; intros Hb; unfold len in *;
    simpl zsum; simpl length.
  - lia.
  - assert (Hx : (lo <= x <= hi)%Z) by (apply Hb; now left).
    assert (Hr : (lo * Z.of_nat (length r) <= zsum r
                  <= hi * Z.of_nat (length r))%Z).
    { apply IH. intros y Hy. apply Hb. now right. }
    lia.
Qed.

Lemma arithmetic_mean_bounds (lo hi : Z) (l : list Z) :
  l <> [] -> (forall x, In x l -> (lo <= x <= hi)%Z) ->
  inject_Z lo <= arithmetic_mean l <= inject_Z hi.
Proof.
  intros Hne Hb.
  pose proof (zsum_bounds lo hi l Hb) as [Hlo Hhi].
  pose proof (inject_len_pos l Hne) as Hn.
  unfold arithmetic_mean. split.
  - apply Qle_shift_div_l; [exact Hn|].
    rewrite <- inject_Z_mult. now rewrite <- Zle_Qle.
  - apply Qle_shift_div_r; [exact Hn|].
    rewrite <- inject_Z_mult. now rewrite <- Zle_Qle.
Qed.

Lemma qsum_ge_In (a : list Q) (q : Q) :
  Forall (fun x => 0 <= x) a -> In q a -> q <= qsum a.
Proof.
  induction 1 as [|x r Hx Hr IH]; intros Hin; simpl.
  - contradiction.
  - pose proof (qsum_nonneg r Hr) as Hs.
    destruct Hin as [-> | Hin].
    + Lqa.lra.
    + specialize (IH Hin). Lqa.lra.
Qed.

(** Integer samples that are not all equal leave a second moment of at
    least 1/(4n). *)
Lemma central_moment_2_lower (l : list Z) :
  (exists a b : Z, In a l /\ In b l /\ a <> b) ->
  1 # 4 <= central_moment 2 l * inject_Z (len l).
Proof.
  intros (a & b & Ha & Hb & Hab).
  assert (Hne : l <> []) by (intros ->; contradiction).
  pose proof (inject_len_nonzero l Hne) as Hnz.
  set (mu := arithmetic_mean l).
  set (f := fun x : Z => Qpower_positive (inject_Z x - mu) 2).
  assert (Hsum : central_moment 2 l * inject_Z (len l) == qsum (map f l)).
  { unfold central_moment. fold mu. fold f. field. exact Hnz. }
  rewrite Hsum.
  assert (Hall : Forall (fun x => 0 <= x) (map f l)).
  { apply Forall_forall. intros q Hq.
    apply in_map_iff in Hq. destruct Hq as (y & <- & _).
    apply Qsquare_nonneg. }
  assert (Hdist : 1 <= inject_Z a - inject_Z b \/ inject_Z a - inject_Z b <= -1).
  { destruct (Z_lt_le_dec a b) as [Hlt | Hge].
    - right. unfold Qle. simpl. lia.
    - left. unfold Qle. simpl. lia. }
  assert (Hone : 1 # 4 <= f a \/ 1 # 4 <= f b).
  { unfold f. rewrite !Qsquare.
    destruct (Qlt_le_dec ((inject_Z a - mu) * (inject_Z a - mu)) (1 # 4))
      as [Hsmall | Hbig]; [|now left].
    right.
    destruct (Qlt_le_dec ((inject_Z b - mu) * (inject_Z b - mu)) (1 # 4))
      as [Hsmall' | Hbig']; [|exact Hbig'].
    exfalso.
    assert (Epq : inject_Z a - inject_Z b
                  == (inject_Z a - mu) - (inject_Z b - mu)) by ring.
    rewrite Epq in Hdist.
    set (p := inject_Z a - mu) in *. set (q := inject_Z b - mu) in *.
    assert (Hp1 : p < 1 # 2) by Lqa.nra.
    assert (Hp2 : - (1 # 2) < p) by Lqa.nra.
    assert (Hq1 : q < 1 # 2) by Lqa.nra.
    assert (Hq2 : - (1 # 2) < q) by Lqa.nra.
    destruct Hdist; Lqa.lra. }
  destruct Hone as [H | H].
  - eapply Qle_trans; [exact H|].
    apply qsum_ge_In; [exact Hall|]. apply in_map. exact Ha.
  - eapply Qle_trans; [exact H|].
    apply qsum_ge_In; [exact Hall|]. apply in_map. exact Hb.
Qed.

Lemma small_bounds (l : list Z) :
  small l -> forall x, In x l -> (- 2 ^ 20 <= x <= 2 ^ 20)%Z.
Proof.
  intros [_ H] x Hx. rewrite Forall_forall in H. specialize (H x Hx). lia.
Qed.

(** On small samples that are not all equal scipy's test for constant
    data does not fire. *)
Lemma not_degenerate (l : list Z) (m m2 : Q) :
  small l -> (exists a b : Z, In a l /\ In b l /\ a <> b) ->
  m == arithmetic_mean l -> m2 == central_moment 2 l ->
  degenerate m m2 = false.
Proof.
  intros Hs Hdiff Em E2.
  assert (Hne : l <> []).
  { destruct Hdiff as (a & _ & Ha & _). intros ->. contradiction. }
  pose proof (central_moment_2_lower l Hdiff) as Hlow.
  pose proof (arithmetic_mean_bounds _ _ l Hne (small_bounds l Hs)) as [Hm1 Hm2].
  pose proof (inject_len_pos l Hne) as Hn.
  assert (HN : inject_Z (len l) <= inject_Z (2 ^ 20)).
  { rewrite <- Zle_Qle. apply Hs. }
  rewrite <- E2 in Hlow. rewrite <- Em in Hm1, Hm2.
  unfold degenerate.
  destruct (Qle_bool m2 (resolution * m * (resolution * m))) eqn:E;
    [|reflexivity].
  exfalso. apply Qle_bool_iff in E. unfold resolution in E.
  change (inject_Z (- 2 ^ 20)) with (- (1048576 # 1)) in Hm1.
  change (inject_Z (2 ^ 20)) with (1048576 # 1) in Hm2, HN.
  set (N := inject_Z (len l)) in *.
  assert (Hmm : m * m <= (1048576 # 1) * (1048576 # 1)) by Lqa.nra.
  assert (H22 : (1 # 4194304) <= m2) by Lqa.nra.
  Lqa.nra.
Qed.

(** C2, amended: whenever the samples are small and not all equal, the
    kurtosis printed by the notebook is the fourth central moment
    divided by the square of the second, minus 3, with
    m_k = (1/n) sum (x - mean)^k. *)
Theorem kurtosis_standardized (l : list Z) :
  small l -> (exists a b : Z, In a l /\ In b l /\ a <> b) ->
  exists k : Q,
    kurtosis l = Num k /\
    k == central_moment 4 l / (central_moment 2 l * central_moment 2 l) - 3.
Proof.
  intros Hs Hdiff.
  assert (Hne : l <> []).
  { destruct Hdiff as (a & _ & Ha & _). intros ->. contradiction. }
  pose proof (small_representable l Hs) as Hr.
  destruct (np_mean_samples l Hne Hr) as (m & Hm & Em).
  destruct (moment_samples 2 l Hne Hr) as (m2 & H2 & E2).
  destruct (moment_samples 4 l Hne Hr) as (m4 & H4 & E4).
  unfold kurtosis, scipy_kurtosis. rewrite Hm, H2, H4.
  rewrite (not_degenerate l m m2 Hs Hdiff Em E2).
  eexists. split; [reflexivity|]. now rewrite E2, E4.
Qed.

Lemma kurtosis_standardized_witness :
  exists k : Q,
    kurtosis samples_literal = Num k /\
    k == central_moment 4 samples_literal
         / (central_moment 2 samples_literal * central_moment 2 samples_literal)
         - 3.
Proof.
  apply (kurtosis_standardized samples_literal).
  - split.
    + vm_compute. discriminate.
    + unfold samples_literal. repeat constructor; vm_compute; discriminate.
  - exists 1%Z, 4%Z. repeat split.
    + now left.
    + right; now left.
    + discriminate.
Defined.

(** C2 as written fails on the notebook's own array: the fourth central
    moment is 1618072/83521 (about 19.37) while the kurtosis printed is
    -42565/81608 (about -0.52), which is neither that moment nor that
    moment minus 3. *)
Lemma kurtosis_standardized_counterexample :
  central_moment 4 samples_literal == 1618072 # 83521 /\
  exactly (kurtosis samples_literal) (-42565 # 81608) /\
  ~ exactly (kurtosis samples_literal) (central_moment 4 samples_literal) /\
  ~ exactly (kurtosis samples_literal) (central_moment 4 samples_literal - 3).
Proof.
  split; [|split; [|split]].
  - vm_compute. reflexivity.
  - vm_compute. reflexivity.
  - vm_compute. intros H. discriminate H.
  - vm_compute. intros H. discriminate H.
Qed.

(** ** Real-valued results *)

Lemma toR_exactly (x : fl Q) (q : Q) : exactly x q -> toR x = Num (Q2R q).
Proof.
  destruct x as [v| |s]; simpl; try contradiction.
  intros E. f_equal. now apply Qeq_eqR.
Qed.

Lemma fsqrt_exactly (x : fl Q) (q : Q) :
  exactly x q -> 0 <= q -> fsqrt x = Num (sqrt (Q2R q)).
Proof.
  destruct x as [v| |s]; simpl; try contradiction.
  intros E Hq. rewrite <- E in Hq. apply Qle_bool_iff in Hq. rewrite Hq.
  f_equal. f_equal. now apply Qeq_eqR.
Qed.

Lemma Rzero_true (x : R) : x = 0%R -> Rzero x = true.
Proof. intros ->. unfold Rzero. now destruct (Req_dec_T 0 0). Qed.

Lemma Rzero_false (x : R) : x <> 0%R -> Rzero x = false.
Proof. intros H. unfold Rzero. now destruct (Req_dec_T x 0). Qed.

Lemma fdiv_Num (x y : R) : y <> 0%R -> fdiv (Num x) (Num y) = Num (x / y)%R.
Proof. intros Hy. simpl. now rewrite (Rzero_false y Hy). Qed.

Lemma fdiv_zero_zero (x y : R) :
  x = 0%R -> y = 0%R -> fdiv (Num x) (Num y) = NaN.
Proof. intros Hx Hy. simpl. now rewrite (Rzero_true y Hy), (Rzero_true x Hx). Qed.

Lemma degenerate_comp (m m' q q' : Q) :
  m == m' -> q == q' -> degenerate m q = degenerate m' q'.
Proof.
  intros Em Eq. unfold degenerate.
  destruct (Qle_bool q (resolution * m * (resolution * m))) eqn:E1;
    destruct (Qle_bool q' (resolution * m' * (resolution * m'))) eqn:E2;
    try reflexivity; exfalso.
  - apply Qle_bool_iff in E1. rewrite Em, Eq in E1.
    apply Qle_bool_iff in E1. congruence.
  - apply Qle_bool_iff in E2. rewrite <- Em, <- Eq in E2.
    apply Qle_bool_iff in E2. congruence.
Qed.

Lemma scipy_skew_exactly (a : list Z) (mu q2 q3 : Q) :
  exactly (np_mean a) mu ->
  exactly (moment 2 a) q2 -> exactly (moment 3 a) q3 ->
  degenerate mu q2 = false ->
  scipy_skew a = Num (Q2R q3 / (Q2R q2 * sqrt (Q2R q2)))%R.
Proof.
  unfold scipy_skew.
  destruct (np_mean a) as [m| |]; simpl; try contradiction.
  destruct (moment 2 a) as [m2| |]; simpl; try contradiction.
  destruct (moment 3 a) as [m3| |]; simpl; try contradiction.
  intros Em E2 E3 Hnd.
  rewrite (degenerate_comp _ _ _ _ Em E2), Hnd.
  now rewrite (Qeq_eqR _ _ E2), (Qeq_eqR _ _ E3).
Qed.

Lemma sqrt_between (v a b : R) :
  (0 <= a -> a * a <= v -> v <= b * b -> 0 <= b -> a <= sqrt v <= b)%R.
Proof.
  intros Ha Hav Hvb Hb. split.
  - rewrite <- (sqrt_square a Ha). now apply sqrt_le_1_alt.
  - rewrite <- (sqrt_square b Hb). now apply sqrt_le_1_alt.
Qed.

(** A ratio with a numerator below zero, its denominator between two
    positive bounds. *)
Lemma neg_div_between (x s a b lo hi : R) :
  (x <= 0 -> 0 < a -> a <= s <= b ->
   lo <= x / a -> x / b <= hi -> lo <= x / s <= hi)%R.
Proof.
  intros Hx Ha [Has Hsb] Hlo Hhi.
  assert (Hs : (0 < s)%R) by lra.
  assert (Hb : (0 < b)%R) by lra.
  assert (H1 : (/ s <= / a)%R) by (apply Rinv_le_contravar; lra).
  assert (H2 : (/ b <= / s)%R) by (apply Rinv_le_contravar; lra).
  unfold Rdiv in *. split.
  - apply Rle_trans with (x * / a)%R; [exact Hlo|].
    now apply Rmult_le_compat_neg_l.
  - apply Rle_trans with (x * / b)%R; [|exact Hhi].
    now apply Rmult_le_compat_neg_l.
Qed.

Lemma close_to_Num (y v : R) :
  (v - 5 / 100000000000 <= y <= v + 5 / 100000000000)%R -> close_to (Num y) v.
Proof. intros H. simpl. apply Rabs_le. lra. Qed.

(** The standard deviation of the notebook's array lies within 10^-13 of
    1.67207887100615. *)
Lemma std_literal_bounds :
  (1.6720788710061 <= sqrt (Q2R (808 # 289)) <= 1.6720788710062)%R.
Proof.
  replace (Q2R (808 # 289)) with (808 / 289)%R by (unfold Q2R; simpl; lra).
  apply sqrt_between; lra.
Qed.

(** ** The notebook's array *)

Lemma mean_literal : exactly (mean samples_literal) (80 # 17).
Proof. vm_compute. reflexivity. Qed.

Lemma variance_literal : exactly (variance samples_literal) (808 # 289).
Proof. vm_compute. reflexivity. Qed.

Lemma moment2_literal :
  exactly (moment 2 (samples samples_literal)) (808 # 289).
Proof. vm_compute. reflexivity. Qed.

Lemma moment3_literal :
  exactly (moment 3 (samples samples_literal)) (-13476 # 4913).
Proof. vm_compute. reflexivity. Qed.

Lemma kurtosis_literal : exactly (kurtosis samples_literal) (-42565 # 81608).
Proof. vm_compute. reflexivity. Qed.

Lemma std_literal : std samples_literal = Num (sqrt (Q2R (808 # 289))).
Proof.
  unfold std, np_std. apply fsqrt_exactly.
  - exact variance_literal.
  - discriminate.
Qed.

(** C1: the statistics of [1,4,6,3,5,7,4,2,3,4,6,6,5,7,6,6,5].  The mean
    is 80/17; mode, median, range, quartiles and IQR are the integers
    6, 5, 6, 4, 6, 2; the remaining values agree with the decimals of the
    specification to ten places. *)
Theorem literal_statistics :
  len samples_literal = 17%Z /\
  exactly (mean samples_literal) (80 # 17) /\
  close_to (toR (mean samples_literal)) 4.7058823529%R /\
  mode samples_literal = Ret 6%Z /\
  median samples_literal = Ret 5%Z /\
  range samples_literal = Ret 6%Z /\
  lower_q samples_literal = Ret 4%Z /\
  upper_q samples_literal = Ret 6%Z /\
  IQR samples_literal = Ret 2%Z /\
  close_to (toR (variance samples_literal)) 2.7958477509%R /\
  close_to (std samples_literal) 1.6720788710%R /\
  (exists sk : skewness,
      skew_cell samples_literal = Ret sk /\
      close_to (sk1 sk) (-0.7739572992)%R /\
      close_to (sk2 sk) (-0.5276981585)%R /\
      close_to (g1 sk) (-0.5867376555)%R) /\
  close_to (toR (kurtosis samples_literal)) (-0.5215787668)%R.
Proof.
  pose proof std_literal_bounds as Hs.
  assert (Hq : forall a b, Q2R (a # b) = (IZR a / IZR (Z.pos b))%R)
    by reflexivity.
  split; [reflexivity|].
  split; [exact mean_literal|].
  split.
  { rewrite (toR_exactly _ _ mean_literal), Hq.
    apply close_to_Num. lra. }
  do 6 (split; [reflexivity|]).
  split.
  { rewrite (toR_exactly _ _ variance_literal), Hq.
    apply close_to_Num. lra. }
  split.
  { rewrite std_literal. apply close_to_Num. lra. }
  split.
  { assert (Hmode : mode samples_literal = Ret 6%Z) by reflexivity.
    assert (Hmedian : median samples_literal = Ret 5%Z) by reflexivity.
    unfold skew_cell. rewrite Hmode, Hmedian. unfold bind.
    eexists. split; [reflexivity|]. cbn [sk1 sk2 g1].
    rewrite (toR_exactly _ _ mean_literal), std_literal.
    rewrite (scipy_skew_exactly _ _ _ _ mean_literal moment2_literal
                                moment3_literal) by reflexivity.
    cbn [fsub fmul].
    change (to_float64 6) with 6%Z. change (to_float64 5) with 5%Z.
    rewrite !fdiv_Num by lra.
    rewrite !Hq in *.
    set (s := sqrt (808 / 289)%R) in *.
    split; [|split]; apply close_to_Num.
    - apply neg_div_between with (a := 1.6720788710061%R)
                                  (b := 1.6720788710062%R); lra.
    - apply neg_div_between with (a := 1.6720788710061%R)
                                  (b := 1.6720788710062%R); lra.
    - replace (-13476 / 4913 / (808 / 289 * s))%R
        with ((-13476 / 4913 / (808 / 289)) / s)%R by (field; lra).
      apply neg_div_between with (a := 1.6720788710061%R)
                                  (b := 1.6720788710062%R); lra. }
  rewrite (toR_exactly _ _ kurtosis_literal), Hq.
  apply close_to_Num. lra.
Qed.

(** ** Constant input *)

Lemma zsum_const (c : Z) (l : list Z) :
  Forall (fun x => x = c) l -> zsum l = (c * len l)%Z.
Proof.
  induction 1 as [|x r Hx _ IH]; unfold len in *; simpl zsum; simpl length.
  - lia.
  - rewrite IH, Hx. lia.
Qed.

Lemma arithmetic_mean_const (c : Z) (l : list Z) :
  l <> [] -> Forall (fun x => x = c) l -> arithmetic_mean l == inject_Z c.
Proof.
  intros Hne Hc. unfold arithmetic_mean.
  rewrite (zsum_const c l Hc), inject_Z_mult.
  field. now apply inject_len_nonzero.
Qed.

Lemma qsum_zero (a : list Q) : Forall (fun q => q == 0) a -> qsum a == 0.
Proof.
  induction 1 as [|x r Hx _ IH]; simpl.
  - reflexivity.
  - rewrite Hx, IH. reflexivity.
Qed.

Lemma central_moment_2_const (c : Z) (l : list Z) :
  l <> [] -> Forall (fun x => x = c) l -> central_moment 2 l == 0.
Proof.
  intros Hne Hc. unfold central_moment.
  rewrite qsum_zero.
  - field. now apply inject_len_nonzero.
  - apply Forall_forall. intros q Hq.
    apply in_map_iff in Hq. destruct Hq as (x & <- & Hx).
    rewrite Forall_forall in Hc. rewrite (Hc x Hx).
    rewrite (arithmetic_mean_const c l Hne).
    + rewrite Qsquare. ring.
    + now apply Forall_forall.
Qed.

Lemma fold_max_const (c : Z) (r : list Z) :
  Forall (fun x => x = c) r -> fold_left Z.max r c = c.
Proof.
  induction 1 as [|x r Hx _ IH]; simpl; [reflexivity|].
  rewrite Hx, Z.max_id. exact IH.
Qed.

Lemma fold_min_const (c : Z) (r : list Z) :
  Forall (fun x => x = c) r -> fold_left Z.min r c = c.
Proof.
  induction 1 as [|x r Hx _ IH]; simpl; [reflexivity|].
  rewrite Hx, Z.min_id. exact IH.
Qed.

Lemma Q2R_inject_Z (c : Z) : Q2R (inject_Z c) = IZR c.
Proof. unfold Q2R. simpl. field. Qed.

(** C8, amended: on a constant input the range is 0 and, from four
    samples on, so is the IQR.  If the input is small, the variance and
    the standard deviation are 0, and when there are at least two
    samples of a non-negative value, sk1 and sk2 are both the NaN of the
    float division 0/0. *)
Theorem constant_samples (c : Z) (l : list Z) :
  l <> [] -> Forall (fun x => x = c) l ->
  range l = Ret 0%Z /\
  ((4 <= len l)%Z -> IQR l = Ret 0%Z) /\
  (small l ->
   exactly (variance l) 0 /\
   std l = Num 0%R /\
   ((2 <= len l)%Z -> (0 <= c)%Z ->
    exists sk : skewness,
      skew_cell l = Ret sk /\ sk1 sk = NaN /\ sk2 sk = NaN)).
Proof.
  intros Hne Hc.
  pose proof (samples_Forall _ l Hc) as Hcs.
  pose proof (samples_nonempty l Hne) as Hnes.
  assert (Hin : forall v, In v l -> v = c).
  { now apply Forall_forall. }
  split; [|split].
  - unfold range. destruct (samples l) as [|x r]; [congruence|].
    inversion Hcs as [|? ? Hx Hr]; subst. cbn [py_max py_min bind].
    rewrite (fold_max_const _ _ Hr), (fold_min_const _ _ Hr).
    f_equal. unfold sub64. rewrite Z.sub_diag. reflexivity.
  - intros H4. pose proof (len_nonneg l) as Hl.
    destruct (lookup_samples l (3 * (len l + 1) / 4)) as (q3 & _ & H3 & I3).
    { index_in_range. }
    destruct (lookup_samples l ((len l + 1) / 4)) as (q1 & _ & H1 & I1).
    { index_in_range. }
    unfold IQR, upper_q, lower_q. rewrite upper_index, lower_index, H3, H1.
    cbn [bind]. rewrite (Hin _ I3), (Hin _ I1). f_equal.
    unfold sub64. rewrite Z.sub_diag. reflexivity.
  - intros Hs. pose proof (small_representable l Hs) as Hr.
    assert (Hvar : exactly (variance l) 0).
    { destruct (np_var_samples l Hne Hr) as (v & Hv & Ev).
      unfold variance. rewrite Hv. simpl.
      rewrite Ev. now apply (central_moment_2_const c). }
    assert (Hstd : std l = Num 0%R).
    { unfold std, np_std. fold (variance l).
      rewrite (fsqrt_exactly _ 0 Hvar) by apply Qle_refl.
      f_equal. replace (Q2R 0) with 0%R by (unfold Q2R; simpl; lra).
      apply sqrt_0. }
    split; [exact Hvar|]. split; [exact Hstd|].
    intros H2 Hpos. pose proof (len_nonneg l) as Hl.
    assert (Hcb : (c <= 2 ^ 20)%Z).
    { destruct l as [|x r]; [congruence|].
      pose proof (small_bounds _ Hs x (or_introl eq_refl)).
      inversion Hc; subst. lia. }
    assert (Hmode : mode l = Ret c).
    { destruct (bincount_argmax (samples l) Hnes) as (m & Hm & Im & _).
      - eapply Forall_impl; [|exact Hcs]. intros a ->. exact Hpos.
      - apply (samples_counters (2 ^ 20) l Hne eq_refl).
        eapply Forall_impl; [|exact Hc]. intros a ->. exact Hcb.
      - unfold mode. rewrite Hm. f_equal.
        rewrite Forall_forall in Hcs. now apply Hcs. }
    assert (Hmedian : median l = Ret c).
    { destruct (lookup_samples l ((len l + 1) / 2)) as (m & _ & Hm & Im).
      - index_in_range.
      - unfold median. rewrite median_index, Hm. f_equal. now apply Hin. }
    assert (Hmean : exactly (mean l) (inject_Z c)).
    { destruct (np_mean_samples l Hne Hr) as (m & Hm & Em).
      unfold mean. rewrite Hm. simpl.
      rewrite Em. now apply arithmetic_mean_const. }
    assert (Hfc : to_float64 c = c).
    { apply to_float64_exact. assert ((2 ^ 20 < 2 ^ 53)%Z) by reflexivity. lia. }
    unfold skew_cell. rewrite Hmode, Hmedian. unfold bind.
    eexists. split; [reflexivity|]. cbn [sk1 sk2].
    rewrite (toR_exactly _ _ Hmean), Hstd, Q2R_inject_Z, Hfc. cbn [fsub fmul].
    split; apply fdiv_zero_zero; try reflexivity; lra.
Qed.

Lemma constant_samples_witness :
  range [3; 3; 3; 3]%Z = Ret 0%Z /\
  IQR [3; 3; 3; 3]%Z = Ret 0%Z /\
  exactly (variance [3; 3; 3; 3]%Z) 0 /\
  std [3; 3; 3; 3]%Z = Num 0%R /\
  exists sk : skewness,
    skew_cell [3; 3; 3; 3]%Z = Ret sk /\ sk1 sk = NaN /\ sk2 sk = NaN.
Proof.
  destruct (constant_samples 3 [3; 3; 3; 3]%Z) as (Hr & Hi & Hsm).
  - discriminate.
  - repeat constructor.
  - destruct Hsm as (Hv & Hs & Hk).
    + split.
      * vm_compute. discriminate.
      * repeat constructor; vm_compute; discriminate.
    + split; [exact Hr|]. split.
      * apply Hi. vm_compute. discriminate.
      * split; [exact Hv|]. split; [exact Hs|].
        apply Hk; vm_compute; discriminate.
Defined.

(** C8 as written fails on short constant inputs: with three equal
    samples the upper-quartile lookup raises IndexError, so there is no
    IQR, and with a single sample the skewness cell stops at the median
    lookup. *)
Lemma constant_samples_counterexample :
  IQR [5; 5; 5]%Z = Raise IndexError /\ skew_cell [5]%Z = Raise IndexError.
Proof. split; reflexivity. Qed.

Close Scope Q_scope.

(** * Further properties of the cells *)

(** ** The sorted array *)

(** Two ascending arrangements of the same values coincide. *)
Lemma sorted_perm_unique (a : list Z) :
  StronglySorted Z.le a ->
  forall b, StronglySorted Z.le b -> Permutation a b -> a = b.
Proof.
  induction 1 as [|x a' Hs IH Hall]; intros b Hb Hp.
  - apply Permutation_nil in Hp. now subst.
  - destruct b as [|y b'].
    + apply Permutation_sym, Permutation_nil in Hp. discriminate.
    + inversion Hb as [|? ? Hsb Hallb]; subst.
      rewrite Forall_forall in Hall, Hallb.
      assert (Hxy : x = y).
      { assert (Hx : In x (y :: b')).
        { eapply Permutation_in; [exact Hp | now left]. }
        assert (Hy : In y (x :: a')).
        { eapply Permutation_in; [apply Permutation_sym, Hp | now left]. }
        destruct Hx as [Hx | Hx]; [now symmetry|].
        destruct Hy as [Hy | Hy]; [exact Hy|].
        specialize (Hall _ Hy). specialize (Hallb _ Hx). lia. }
      subst y. f_equal. apply IH; [exact Hsb|].
      eapply Permutation_cons_inv. exact Hp.
Qed.

(** X1: after [samples = np.sort(samples)] the array is ascending, holds
    the input values with their multiplicities, has the input's length,
    and sorting it once more changes nothing. *)
Theorem samples_sorted_permutation (l : list Z) :
  StronglySorted Z.le (samples l) /\
  Permutation (samples l) l /\
  len (samples l) = len l /\
  (forall v, count v (samples l) = count v l) /\
  samples (samples l) = samples l.
Proof.
  split; [apply np_sort_sorted|].
  split; [apply np_sort_perm|].
  split; [apply len_samples|].
  split; [intros v; apply count_samples|].
  apply sorted_perm_unique.
  - apply np_sort_sorted.
  - apply np_sort_sorted.
  - apply np_sort_perm.
Qed.

Lemma samples_perm_eq (l l' : list Z) :
  Permutation l l' -> samples l = samples l'.
Proof.
  intros Hp. apply sorted_perm_unique.
  - apply np_sort_sorted.
  - apply np_sort_sorted.
  - eapply perm_trans; [apply np_sort_perm|].
    eapply perm_trans; [exact Hp|].
    apply Permutation_sym. apply np_sort_perm.
Qed.

(** X2: the order in which the values are given to [np.array] does not
    matter: two inputs that are rearrangements of each other lead to the
    same sorted array and to the same output of every cell. *)
Theorem statistics_order_independent (l l' : list Z) :
  Permutation l l' ->
  samples l = samples l' /\
  mean l = mean l' /\ mode l = mode l' /\ median l = median l' /\
  range l = range l' /\ upper_q l = upper_q l' /\ lower_q l = lower_q l' /\
  IQR l = IQR l' /\ variance l = variance l' /\ std l = std l' /\
  skew_cell l = skew_cell l' /\ kurtosis l = kurtosis l'.
Proof.
  intros Hp. pose proof (samples_perm_eq l l' Hp) as E.
  unfold mean, mode, median, range, IQR, upper_q, lower_q, variance, std,
    skew_cell, kurtosis, mean, mode, median, std.
  rewrite E. repeat split; reflexivity.
Qed.

Lemma statistics_order_independent_witness :
  samples samples_literal = samples (rev samples_literal) /\
  mean samples_literal = mean (rev samples_literal) /\
  mode samples_literal = mode (rev samples_literal) /\
  median samples_literal = median (rev samples_literal) /\
  range samples_literal = range (rev samples_literal) /\
  upper_q samples_literal = upper_q (rev samples_literal) /\
  lower_q samples_literal = lower_q (rev samples_literal) /\
  IQR samples_literal = IQR (rev samples_literal) /\
  variance samples_literal = variance (rev samples_literal) /\
  std samples_literal = std (rev samples_literal) /\
  skew_cell samples_literal = skew_cell (rev samples_literal) /\
  kurtosis samples_literal = kurtosis (rev samples_literal).
Proof.
  apply (statistics_order_independent samples_literal (rev samples_literal)).
  apply Permutation_rev.
Defined.

(** ** Range and interquartile range *)

Lemma fold_max_In (r : list Z) :
  forall x, In (fold_left Z.max r x) (x :: r).
Proof.
  induction r as [|y r IH]; intros x; simpl.
  - now left.
  - destruct (IH (Z.max x y)) as [H | H].
    + destruct (Z.max_spec x y) as [[_ E] | [_ E]]; rewrite E in *.
      * right; left. exact H.
      * left. exact H.
    + right; right. exact H.
Qed.

Lemma fold_min_le (r : list Z) :
  forall x, fold_left Z.min r x <= x /\
            Forall (fun v => fold_left Z.min r x <= v) r.
Proof.
  induction r as [|y r IH]; intros x; simpl.
  - split; [lia | constructor].
  - destruct (IH (Z.min x y)) as [H1 H2]. split; [lia|].
    constructor; [lia | exact H2].
Qed.

Lemma fold_min_In (r : list Z) :
  forall x, In (fold_left Z.min r x) (x :: r).
Proof.
  induction r as [|y r IH]; intros x; simpl.
  - now left.
  - destruct (IH (Z.min x y)) as [H | H].
    + destruct (Z.min_spec x y) as [[_ E] | [_ E]]; rewrite E in *.
      * left. exact H.
      * right; left. exact H.
    + right; right. exact H.
Qed.

(** The extremes found by [max] and [min] on the sorted array, read on
    the input. *)
Lemma extremes (l : list Z) :
  l <> [] ->
  exists lo hi : Z,
    py_min (samples l) = Ret lo /\ py_max (samples l) = Ret hi /\
    In lo l /\ In hi l /\ (forall x, In x l -> lo <= x <= hi).
Proof.
  intros Hne. pose proof (samples_nonempty l Hne) as Hs.
  assert (Hp : Permutation (samples l) l) by apply np_sort_perm.
  destruct (samples l) as [|x r]; [congruence|].
  exists (fold_left Z.min r x), (fold_left Z.max r x).
  split; [reflexivity|]. split; [reflexivity|].
  split; [eapply Permutation_in; [exact Hp | apply fold_min_In]|].
  split; [eapply Permutation_in; [exact Hp | apply fold_max_In]|].
  intros v Hv.
  assert (Hv' : In v (x :: r)).
  { eapply Permutation_in; [apply Permutation_sym, Hp | exact Hv]. }
  destruct (fold_max_ge r x) as [M1 M2].
  destruct (fold_min_le r x) as [m1 m2].
  rewrite Forall_forall in M2, m2.
  destruct Hv' as [<- | Hv']; [lia|].
  specialize (M2 _ Hv'). specialize (m2 _ Hv'). lia.
Qed.

(** X3: on a non-empty int64 array the range printed by cell 3 is the
    int64 difference of hi and lo, two samples that bound every sample.
    The exact difference hi - lo is never negative, and it is what is
    printed whenever it is below 2^63. *)
Theorem range_is_spread (l : list Z) :
  l <> [] -> int64_array l ->
  exists lo hi : Z,
    In lo l /\ In hi l /\ (forall x, In x l -> lo <= x <= hi) /\
    range l = Ret (sub64 hi lo) /\ 0 <= hi - lo /\
    (hi - lo < 2 ^ 63 -> range l = Ret (hi - lo)).
Proof.
  intros Hne _.
  destruct (extremes l Hne) as (lo & hi & Hmin & Hmax & Ilo & Ihi & Hb).
  assert (Hr : range l = Ret (sub64 hi lo)).
  { unfold range. rewrite Hmax, Hmin. reflexivity. }
  assert (H0 : 0 <= hi - lo) by (specialize (Hb _ Ilo); lia).
  exists lo, hi. repeat split; try assumption.
  - now apply Hb.
  - now apply Hb.
  - intros Hfit. rewrite Hr, sub64_exact; [reflexivity | lia].
Qed.

Lemma range_is_spread_witness :
  exists lo hi : Z,
    In lo [4; -2; 9] /\ In hi [4; -2; 9] /\
    (forall x, In x [4; -2; 9] -> lo <= x <= hi) /\
    range [4; -2; 9] = Ret (sub64 hi lo) /\ 0 <= hi - lo /\
    (hi - lo < 2 ^ 63 -> range [4; -2; 9] = Ret (hi - lo)).
Proof.
  apply (range_is_spread [4; -2; 9]).
  - discriminate.
  - repeat constructor; vm_compute; discriminate.
Defined.

(** The two extreme int64 values are 2^64 - 1 apart; the range printed
    for them is -1. *)
Example range_wraps : range [- 2 ^ 63; 2 ^ 63 - 1] = Ret (-1).
Proof. reflexivity. Qed.

(** X4: from four samples on, all of them in [-2^62, 2^62), cell 3
    prints both a range and an IQR, and the IQR lies between 0 and the
    range. *)
Theorem IQR_within_range (l : list Z) :
  4 <= len l -> Forall (fun x => - 2 ^ 62 <= x < 2 ^ 62) l ->
  exists d r : Z, IQR l = Ret d /\ range l = Ret r /\ 0 <= d <= r.
Proof.
  intros H4 Hfit.
  assert (Hne : l <> []) by (intros ->; vm_compute in H4; congruence).
  rewrite Forall_forall in Hfit.
  destruct (extremes l Hne) as (lo & hi & Hmin & Hmax & Ilo & Ihi & Hb).
  destruct (lookup_samples l (3 * (len l + 1) / 4)) as (q3 & N3 & H3 & I3).
  { index_in_range. }
  destruct (lookup_samples l ((len l + 1) / 4)) as (q1 & N1 & H1 & I1).
  { index_in_range. }
  pose proof (Hfit _ Ilo). pose proof (Hfit _ Ihi).
  pose proof (Hfit _ I1). pose proof (Hfit _ I3).
  assert (E62 : 2 ^ 63 = 2 * 2 ^ 62) by reflexivity.
  assert (Hle : q1 <= q3).
  { refine (sorted_nth_le _ (np_sort_sorted l) _ _ _ _ _ N1 N3).
    apply Z2Nat.inj_le; try (apply Z.div_pos; lia).
    apply Z.div_le_mono; lia. }
  pose proof (Hb _ I1). pose proof (Hb _ I3).
  exists (q3 - q1), (hi - lo). split; [|split].
  - unfold IQR, upper_q, lower_q.
    rewrite upper_index, lower_index, H3, H1. cbn [bind].
    rewrite sub64_exact; [reflexivity | lia].
  - unfold range. rewrite Hmax, Hmin. cbn [bind].
    rewrite sub64_exact; [reflexivity | lia].
  - lia.
Qed.

Lemma IQR_within_range_witness :
  exists d r : Z,
    IQR samples_literal = Ret d /\ range samples_literal = Ret r /\
    0 <= d <= r.
Proof.
  apply (IQR_within_range samples_literal).
  - vm_compute. discriminate.
  - unfold samples_literal. repeat constructor; vm_compute; discriminate.
Defined.

(** ** When the lookups and the mode fail *)

Lemma lookup_fails_iff (l : list Z) (i : Z) :
  0 <= i -> (getitem (samples l) i = Raise IndexError <-> len l <= i).
Proof.
  intros Hi. split.
  - intros Hr. destruct (Z_lt_le_dec i (len l)) as [Hlt | Hge]; [|exact Hge].
    destruct (lookup_samples l i) as (v & _ & Hv & _); [lia|]. congruence.
  - intros Hge. apply getitem_outside. now rewrite len_samples.
Qed.

(** X5: the positional lookups fail by IndexError on short arrays and
    only there: the median needs two samples, the lower quartile one,
    the upper quartile and the IQR four. *)
Theorem lookup_domains (l : list Z) :
  (median l = Raise IndexError <-> len l <= 1) /\
  (lower_q l = Raise IndexError <-> len l = 0) /\
  (upper_q l = Raise IndexError <-> len l <= 3) /\
  (IQR l = Raise IndexError <-> len l <= 3).
Proof.
  pose proof (len_nonneg l) as Hl.
  assert (Hm : len l <= (len l + 1) / 2 <-> len l <= 1).
  { split; intros H.
    - destruct (Z_le_gt_dec (len l) 1) as [|Hgt]; [assumption|].
      assert ((len l + 1) / 2 < len l)
        by (apply Z.div_lt_upper_bound; lia). lia.
    - assert (C : len l = 0 \/ len l = 1) by lia.
      destruct C as [-> | ->]; vm_compute; discriminate. }
  assert (Hq : len l <= (len l + 1) / 4 <-> len l = 0).
  { split; intros H.
    - destruct (Z.eq_dec (len l) 0) as [|Hne]; [assumption|].
      assert ((len l + 1) / 4 < len l)
        by (apply Z.div_lt_upper_bound; lia). lia.
    - rewrite H. vm_compute. discriminate. }
  assert (Hu : len l <= 3 * (len l + 1) / 4 <-> len l <= 3).
  { split; intros H.
    - destruct (Z_le_gt_dec (len l) 3) as [|Hgt]; [assumption|].
      assert (3 * (len l + 1) / 4 < len l)
        by (apply Z.div_lt_upper_bound; lia). lia.
    - assert (C : len l = 0 \/ len l = 1 \/ len l = 2 \/ len l = 3) by lia.
      destruct C as [-> | [-> | [-> | ->]]]; vm_compute; discriminate. }
  assert (Hup : upper_q l = Raise IndexError <-> len l <= 3).
  { unfold upper_q. rewrite upper_index, <- Hu.
    apply lookup_fails_iff. apply Z.div_pos; lia. }
  split; [|split; [|split]].
  - unfold median. rewrite median_index, <- Hm.
    apply lookup_fails_iff. apply Z.div_pos; lia.
  - unfold lower_q. rewrite lower_index, <- Hq.
    apply lookup_fails_iff. apply Z.div_pos; lia.
  - exact Hup.
  - split.
    + intros HI. apply Hup. unfold IQR in HI.
      destruct (upper_q l) as [u|e] eqn:Eu.
      * exfalso. simpl in HI.
        destruct (lower_q l) as [q|e] eqn:El; simpl in HI; [discriminate|].
        assert (H0 : len l = 0).
        { apply Hq. unfold lower_q in El. rewrite lower_index in El.
          apply lookup_fails_iff; [apply Z.div_pos; lia|]. congruence. }
        assert (Hu3 : @Ret Z u = Raise IndexError) by (apply Hup; lia).
        discriminate.
      * simpl in HI. exact HI.
    + intros H3. apply Hup in H3. unfold IQR. now rewrite H3.
Qed.

Lemma mode_negative (l : list Z) :
  Exists (fun v => v < 0) l -> mode l = Raise ValueError.
Proof.
  intros Hex.
  assert (Hin : exists v, In v (samples l) /\ v < 0).
  { apply Exists_exists in Hex. destruct Hex as (v & Hv & Hlt).
    exists v. split; [|exact Hlt].
    eapply Permutation_in; [apply Permutation_sym, np_sort_perm | exact Hv]. }
  unfold mode, bincount.
  destruct (samples l) as [|y r] eqn:Es.
  { destruct Hin as (v & [] & _). }
  replace (existsb (fun v => v <? 0) (y :: r)) with true; [reflexivity|].
  symmetry. apply existsb_exists.
  destruct Hin as (v & Hv & Hlt). exists v. split; [exact Hv|].
  now apply Z.ltb_lt.
Qed.

(** An array holds a negative entry or none. *)
Lemma negative_or_not (l : list Z) :
  Forall (fun v => 0 <= v) l \/ Exists (fun v => v < 0) l.
Proof.
  destruct (Forall_Exists_dec (fun v => 0 <= v) (fun v => Z_le_dec 0 v) l)
    as [Hpos | Hneg]; [now left | right].
  eapply Exists_impl; [|exact Hneg]. intros a Ha. simpl in Ha. lia.
Qed.

(** What bincount returns, when it returns. *)
Lemma bincount_Ret (a c : list Z) :
  bincount a = Ret c ->
  a <> [] /\ Forall (fun v => 0 <= v) a /\ amax a + 1 < 2 ^ 60.
Proof.
  unfold bincount. destruct a as [|y r]; [discriminate|].
  destruct (negative_or_not (y :: r)) as [Hpos | Hneg].
  - rewrite (no_negative _ Hpos).
    destruct (2 ^ 60 <=? amax (y :: r) + 1) eqn:E; [discriminate|].
    intros _. apply Z.leb_gt in E. repeat split; [discriminate | | ]; assumption.
  - replace (existsb (fun v => v <? 0) (y :: r)) with true; [discriminate|].
    symmetry. apply existsb_exists.
    apply Exists_exists in Hneg. destruct Hneg as (v & Hv & Hlt).
    exists v. split; [exact Hv | now apply Z.ltb_lt].
Qed.

Lemma mode_Ret (l : list Z) (m : Z) :
  mode l = Ret m -> l <> [] /\ Forall (fun v => 0 <= v) l /\ 0 <= m /\ In m l.
Proof.
  intros Hm. unfold mode in Hm.
  destruct (bincount (samples l)) as [c|e] eqn:Ec; [|discriminate].
  destruct (bincount_Ret _ _ Ec) as (Hne & Hpos & Hsize).
  destruct (bincount_argmax (samples l) Hne Hpos Hsize) as (m' & Hm' & Hin & _).
  rewrite Ec in Hm'. simpl in Hm, Hm'. assert (m' = m) by congruence. subst m'.
  assert (Hperm : Permutation (samples l) l) by apply np_sort_perm.
  repeat split.
  - intros ->. now apply Hne.
  - eapply Permutation_Forall; [exact Hperm | exact Hpos].
  - rewrite Forall_forall in Hpos. now apply Hpos.
  - eapply Permutation_in; [exact Hperm | exact Hin].
Qed.

(** X6: the mode fails with TypeError on the empty array and with
    ValueError on an int64 array with a negative entry, never with
    IndexError.  On a non-empty array of entries between 0 and 2^20 it
    is produced, and whenever it is produced it is a non-negative sample
    of an array without negative entries. *)
Theorem mode_domain (l : list Z) :
  (l = [] -> mode l = Raise TypeError) /\
  (int64_array l -> Exists (fun v => v < 0) l -> mode l = Raise ValueError) /\
  mode l <> Raise IndexError /\
  (l <> [] -> Forall (fun v => 0 <= v <= 2 ^ 20) l ->
   exists m, mode l = Ret m) /\
  (forall m, mode l = Ret m ->
             l <> [] /\ Forall (fun v => 0 <= v) l /\ 0 <= m /\ In m l).
Proof.
  split; [intros ->; reflexivity|].
  split; [intros _; apply mode_negative|].
  split; [|split].
  - unfold mode, bincount. destruct (samples l) as [|y r]; [discriminate|].
    destruct (existsb (fun v => v <? 0) (y :: r)); [discriminate|].
    destruct (2 ^ 60 <=? amax (y :: r) + 1); [discriminate|].
    cbn [bind]. unfold argmax.
    destruct (map (fun i => count (Z.of_nat i) (y :: r)) (seq 0 (bins (y :: r))));
      discriminate.
  - intros Hne Hrange. destruct (Forall_between _ _ l Hrange) as [Hpos Hle].
    destruct (bincount_argmax (samples l) (samples_nonempty l Hne)
                (samples_Forall _ l Hpos)
                (samples_counters (2 ^ 20) l Hne eq_refl Hle)) as (m & Hm & _).
    now exists m.
  - apply mode_Ret.
Qed.

(** ** Mean and variance on arbitrary input *)

Open Scope Q_scope.

Lemma constant_or_spread (l : list Z) :
  l <> [] ->
  (exists c : Z, Forall (fun x => x = c) l) \/
  (exists a b : Z, In a l /\ In b l /\ a <> b).
Proof.
  destruct l as [|x0 l0] eqn:El; [congruence | intros _]. rewrite <- El.
  destruct (Forall_Exists_dec (fun x => x = x0) (fun x => Z.eq_dec x x0) l)
    as [Hall | Hex].
  - left. now exists x0.
  - right. apply Exists_exists in Hex. destruct Hex as (b & Hb & Hne).
    exists x0, b. repeat split.
    + rewrite El. now left.
    + exact Hb.
    + congruence.
Qed.

(** X7: on a non-empty small input the variance is a non-negative
    number, and it is zero exactly when all samples are equal. *)
Theorem variance_zero_iff_constant (l : list Z) :
  l <> [] -> small l ->
  exists v : Q,
    variance l = Num v /\ 0 <= v /\
    (v == 0 <-> exists c : Z, Forall (fun x => x = c) l).
Proof.
  intros Hne Hs.
  destruct (np_var_samples l Hne (small_representable l Hs)) as (v & Hv & Ev).
  exists v. split; [exact Hv|]. split.
  - rewrite Ev. apply central_moment_2_nonneg.
  - split.
    + intros Hz. destruct (constant_or_spread l Hne) as [Hc | Hd]; [exact Hc|].
      apply central_moment_2_pos in Hd. rewrite <- Ev, Hz in Hd.
      now apply Qlt_irrefl in Hd.
    + intros (c & Hc). rewrite Ev. now apply (central_moment_2_const c).
Qed.

Lemma variance_zero_iff_constant_witness :
  exists v : Q,
    variance samples_literal = Num v /\ 0 <= v /\
    (v == 0 <-> exists c : Z, Forall (fun x => x = c) samples_literal).
Proof.
  apply (variance_zero_iff_constant samples_literal).
  - discriminate.
  - split.
    + vm_compute. discriminate.
    + unfold samples_literal. repeat constructor; vm_compute; discriminate.
Defined.

(** X8: on a non-empty small input the mean is a number that lies
    between the smallest and the largest sample, the two values cell 3
    subtracts. *)
Theorem mean_within_extremes (l : list Z) :
  l <> [] -> small l ->
  exists (m : Q) (lo hi : Z),
    mean l = Num m /\
    py_min (samples l) = Ret lo /\ py_max (samples l) = Ret hi /\
    inject_Z lo <= m <= inject_Z hi.
Proof.
  intros Hne Hs.
  destruct (np_mean_samples l Hne (small_representable l Hs)) as (m & Hm & Em).
  destruct (extremes l Hne) as (lo & hi & Hmin & Hmax & _ & _ & Hb).
  exists m, lo, hi. split; [exact Hm|]. split; [exact Hmin|].
  split; [exact Hmax|].
  rewrite Em. now apply arithmetic_mean_bounds.
Qed.

Lemma mean_within_extremes_witness :
  exists (m : Q) (lo hi : Z),
    mean samples_literal = Num m /\
    py_min (samples samples_literal) = Ret lo /\
    py_max (samples samples_literal) = Ret hi /\
    inject_Z lo <= m <= inject_Z hi.
Proof.
  apply (mean_within_extremes samples_literal).
  - discriminate.
  - split.
    + vm_compute. discriminate.
    + unfold samples_literal. repeat constructor; vm_compute; discriminate.
Defined.

(** ** A lower bound for the kurtosis *)

Lemma inject_length_cons (A : Type) (x : A) (r : list A) :
  inject_Z (Z.of_nat (length (x :: r))) == inject_Z (Z.of_nat (length r)) + 1.
Proof.
  simpl length. rewrite Nat2Z.inj_succ. unfold Z.succ.
  now rewrite inject_Z_plus.
Qed.

(** Expanding the squares of the deviations from [c]. *)
Lemma qsum_shift_square (c : Q) (ds : list Q) :
  qsum (map (fun d => (d - c) * (d - c)) ds)
  == qsum (map (fun d => d * d) ds) - 2 * c * qsum ds
     + inject_Z (Z.of_nat (length ds)) * (c * c).
Proof.
  induction ds as [|d r IH].
  - simpl. ring.
  - rewrite inject_length_cons. simpl map. simpl qsum. rewrite IH. ring.
Qed.

(** The square of a sum of n numbers is at most n times the sum of their
    squares. *)
Lemma square_of_sum (ds : list Q) :
  qsum ds * qsum ds
  <= inject_Z (Z.of_nat (length ds)) * qsum (map (fun d => d * d) ds).
Proof.
  destruct ds as [|d0 r] eqn:E.
  - simpl. apply Qle_refl.
  - rewrite <- E. set (N := inject_Z (Z.of_nat (length ds))).
    assert (HN : 0 < N).
    { unfold N, Qlt. rewrite E. simpl length. simpl. lia. }
    assert (Hnz : ~ N == 0).
    { intros Hz. rewrite Hz in HN. now apply Qlt_irrefl in HN. }
    set (c := qsum ds / N).
    assert (H0 : 0 <= qsum (map (fun d => (d - c) * (d - c)) ds)).
    { apply qsum_nonneg, Forall_forall. intros q Hq.
      apply in_map_iff in Hq. destruct Hq as (d & <- & _).
      apply (Qsqr_nonneg (d - c)). }
    rewrite qsum_shift_square in H0. fold N in H0.
    assert (H1 : 0 <= N * (qsum (map (fun d => d * d) ds)
                           - 2 * c * qsum ds + N * (c * c))).
    { apply Qmult_le_0_compat; [now apply Qlt_le_weak | exact H0]. }
    assert (E1 : N * (qsum (map (fun d => d * d) ds)
                      - 2 * c * qsum ds + N * (c * c))
                 == N * qsum (map (fun d => d * d) ds) - qsum ds * qsum ds).
    { unfold c. field. exact Hnz. }
    rewrite E1 in H1.
    apply (Qplus_le_compat _ _ (qsum ds * qsum ds) (qsum ds * qsum ds)) in H1;
      [|apply Qle_refl].
    ring_simplify in H1. ring_simplify. exact H1.
Qed.

(** The fourth central moment is at least the square of the second. *)
Lemma central_moment_4_ge (l : list Z) :
  l <> [] ->
  central_moment 2 l * central_moment 2 l <= central_moment 4 l.
Proof.
  intros Hne. unfold central_moment.
  set (mu := arithmetic_mean l).
  set (ds := map (fun x => Qpower_positive (inject_Z x - mu) 2) l).
  assert (E4 : map (fun x => Qpower_positive (inject_Z x - mu) 4) l
               = map (fun d => d * d) ds).
  { unfold ds. rewrite map_map. reflexivity. }
  rewrite E4.
  assert (EN : inject_Z (len l) = inject_Z (Z.of_nat (length ds))).
  { unfold ds, len. now rewrite length_map. }
  pose proof (square_of_sum ds) as Hcs. rewrite <- EN in Hcs.
  pose proof (inject_len_pos l Hne) as HN.
  pose proof (inject_len_nonzero l Hne) as Hnz.
  set (N := inject_Z (len l)) in *.
  assert (Hi : 0 <= / N * / N).
  { apply Qmult_le_0_compat; apply Qinv_le_0_compat; now apply Qlt_le_weak. }
  setoid_replace (qsum ds / N * (qsum ds / N))
    with (qsum ds * qsum ds * (/ N * / N)) by (field; exact Hnz).
  setoid_replace (qsum (map (fun d => d * d) ds) / N)
    with (N * qsum (map (fun d => d * d) ds) * (/ N * / N))
    by (field; exact Hnz).
  now apply Qmult_le_compat_r.
Qed.

(** X9: whenever the samples are small and not all equal, the kurtosis
    printed by cell 6 is a number not below -2 (in the exact arithmetic
    of this development). *)
Theorem kurtosis_lower_bound (l : list Z) :
  small l -> (exists a b : Z, In a l /\ In b l /\ a <> b) ->
  exists k : Q, kurtosis l = Num k /\ -2 <= k.
Proof.
  intros Hs Hdiff. pose proof (central_moment_2_pos l Hdiff) as Hpos.
  assert (Hne : l <> []).
  { destruct Hdiff as (a & _ & Ha & _). intros ->. contradiction. }
  pose proof (small_representable l Hs) as Hr.
  destruct (np_mean_samples l Hne Hr) as (m & Hm & Em).
  destruct (moment_samples 2 l Hne Hr) as (m2 & H2 & E2).
  destruct (moment_samples 4 l Hne Hr) as (m4 & H4 & E4).
  unfold kurtosis, scipy_kurtosis. rewrite Hm, H2, H4.
  rewrite (not_degenerate l m m2 Hs Hdiff Em E2).
  eexists. split; [reflexivity|]. rewrite E2, E4.
  assert (H1 : 1 <= central_moment 4 l
                    / (central_moment 2 l * central_moment 2 l)).
  { apply Qle_shift_div_l.
    - now apply Qmult_lt_0_compat.
    - rewrite Qmult_1_l. now apply central_moment_4_ge. }
  apply (Qplus_le_compat _ _ (-3) (-3)) in H1; [|apply Qle_refl].
  exact H1.
Qed.

Lemma kurtosis_lower_bound_witness :
  exists k : Q, kurtosis [0; 1]%Z = Num k /\ -2 <= k.
Proof.
  apply (kurtosis_lower_bound [0; 1]%Z).
  - split.
    + vm_compute. discriminate.
    + repeat constructor; vm_compute; discriminate.
  - exists 0%Z, 1%Z. repeat split.
    + now left.
    + right; now left.
    + discriminate.
Defined.

(** ** The skewness cell *)

Lemma spread_len (l : list Z) :
  (exists a b : Z, In a l /\ In b l /\ a <> b) -> (2 <= len l)%Z.
Proof.
  intros (a & b & Ha & Hb & Hab).
  destruct l as [|x [|y r]]; unfold len; simpl length.
  - contradiction.
  - simpl in Ha, Hb. intuition congruence.
  - lia.
Qed.

Lemma Q2R_pos (q : Q) : 0 < q -> (0 < Q2R q)%R.
Proof.
  intros Hq. apply Qlt_Rlt in Hq.
  replace (Q2R 0) with 0%R in Hq by (unfold Q2R; simpl; lra). exact Hq.
Qed.

Lemma small_nonneg_range (l : list Z) :
  small l -> Forall (fun v => (0 <= v)%Z) l ->
  Forall (fun v => (0 <= v <= 2 ^ 20)%Z) l.
Proof.
  intros Hs Hpos. apply Forall_forall. intros x Hx.
  rewrite Forall_forall in Hpos.
  pose proof (small_bounds l Hs x Hx). specialize (Hpos x Hx). lia.
Qed.

Lemma small_mode (l : list Z) :
  l <> [] -> small l -> Forall (fun v => (0 <= v)%Z) l ->
  exists mo : Z, mode l = Ret mo /\ In mo l.
Proof.
  intros Hne Hs Hpos.
  destruct (Forall_between _ _ l (small_nonneg_range l Hs Hpos)) as [_ Hle].
  destruct (bincount_argmax (samples l) (samples_nonempty l Hne)
              (samples_Forall _ l Hpos)
              (samples_counters (2 ^ 20) l Hne eq_refl Hle))
    as (mo & Hmo & Hin & _).
  exists mo. split; [exact Hmo|].
  eapply Permutation_in; [apply np_sort_perm | exact Hin].
Qed.

Lemma small_to_float64 (l : list Z) (x : Z) :
  small l -> In x l -> to_float64 x = x.
Proof.
  intros Hs Hx. apply to_float64_exact.
  pose proof (small_bounds l Hs x Hx).
  assert ((2 ^ 20 < 2 ^ 53)%Z) by reflexivity. lia.
Qed.

(** Small samples that are not all equal: the three measures are
    quotients by a positive standard deviation. *)
Lemma skew_cell_spread (l : list Z) :
  small l -> Forall (fun v => (0 <= v)%Z) l ->
  (exists a b : Z, In a l /\ In b l /\ a <> b) ->
  exists (sk : skewness) (mo me : Z) (v : Q),
    mode l = Ret mo /\ median l = Ret me /\ variance l = Num v /\ 0 < v /\
    skew_cell l = Ret sk /\
    sk1 sk = Num ((Q2R (arithmetic_mean l) - IZR mo) / sqrt (Q2R v))%R /\
    sk2 sk = Num (3 * (Q2R (arithmetic_mean l) - IZR me) / sqrt (Q2R v))%R /\
    g1 sk = Num (Q2R (central_moment 3 l) / (Q2R v * sqrt (Q2R v)))%R.
Proof.
  intros Hs Hpos Hdiff.
  pose proof (spread_len l Hdiff) as Hlen.
  pose proof (central_moment_2_pos l Hdiff) as Hcm.
  pose proof (small_representable l Hs) as Hr.
  assert (Hne : l <> []) by (intros ->; vm_compute in Hlen; congruence).
  destruct (small_mode l Hne Hs Hpos) as (mo & Hmo & Imo).
  destruct (lookup_samples l ((len l + 1) / 2)) as (me & _ & Hme & Ime).
  { index_in_range. }
  assert (Hmedian : median l = Ret me).
  { unfold median. now rewrite median_index. }
  destruct (np_mean_samples l Hne Hr) as (m & Hm & Em).
  destruct (np_var_samples l Hne Hr) as (v & Hv & Ev).
  destruct (moment_samples 2 l Hne Hr) as (m2 & H2 & E2).
  destruct (moment_samples 3 l Hne Hr) as (m3 & H3 & E3).
  assert (Hvpos : 0 < v) by now rewrite Ev.
  assert (Hmean : exactly (mean l) (arithmetic_mean l)).
  { unfold mean. rewrite Hm. exact Em. }
  assert (Hstd : std l = Num (sqrt (Q2R v))).
  { unfold std, np_std. apply fsqrt_Num; [exact Hv | now apply Qlt_le_weak]. }
  assert (Hsq : (sqrt (Q2R v) <> 0)%R).
  { pose proof (sqrt_lt_R0 _ (Q2R_pos v Hvpos)). lra. }
  assert (Hg : scipy_skew (samples l)
               = Num (Q2R (central_moment 3 l) / (Q2R v * sqrt (Q2R v)))%R).
  { apply (scipy_skew_exactly _ (arithmetic_mean l)).
    - rewrite Hm. exact Em.
    - rewrite H2. simpl. now rewrite E2, Ev.
    - rewrite H3. exact E3.
    - apply (not_degenerate l); [exact Hs | exact Hdiff | reflexivity | exact Ev]. }
  eexists. exists mo, me, v.
  split; [exact Hmo|]. split; [exact Hmedian|]. split; [exact Hv|].
  split; [exact Hvpos|].
  unfold skew_cell. rewrite Hmo, Hmedian. unfold bind.
  split; [reflexivity|]. cbn [sk1 sk2 g1].
  rewrite (toR_exactly _ _ Hmean), Hstd, Hg.
  rewrite (small_to_float64 l mo Hs Imo), (small_to_float64 l me Hs Ime).
  cbn [fsub fmul].
  rewrite !fdiv_Num by exact Hsq. repeat split.
Qed.

(** Equal small non-negative samples, at least two of them: both ratios
    are 0/0. *)
Lemma skew_cell_constant (c : Z) (l : list Z) :
  (2 <= len l)%Z -> small l -> (0 <= c)%Z -> Forall (fun x => x = c) l ->
  exists sk : skewness,
    skew_cell l = Ret sk /\ sk1 sk = NaN /\ sk2 sk = NaN.
Proof.
  intros H2 Hs Hpos Hc.
  assert (Hne : l <> []) by (intros ->; vm_compute in H2; congruence).
  pose proof (small_representable l Hs) as Hr.
  assert (Hin : forall v, In v l -> v = c) by now apply Forall_forall.
  assert (Hnn : Forall (fun v => (0 <= v)%Z) l).
  { eapply Forall_impl; [|exact Hc]. intros a ->. exact Hpos. }
  assert (Hmode : mode l = Ret c).
  { destruct (small_mode l Hne Hs Hnn) as (mo & Hmo & Imo).
    rewrite Hmo. f_equal. now apply Hin. }
  assert (Hmedian : median l = Ret c).
  { destruct (lookup_samples l ((len l + 1) / 2)) as (m & _ & Hm & Im).
    - index_in_range.
    - unfold median. rewrite median_index, Hm. f_equal. now apply Hin. }
  assert (Hmean : exactly (mean l) (inject_Z c)).
  { destruct (np_mean_samples l Hne Hr) as (m & Hm & Em).
    unfold mean. rewrite Hm. simpl.
    rewrite Em. now apply arithmetic_mean_const. }
  assert (Hstd : std l = Num 0%R).
  { destruct (np_var_samples l Hne Hr) as (v & Hv & Ev).
    unfold std, np_std. rewrite (fsqrt_exactly _ 0).
    - f_equal. replace (Q2R 0) with 0%R by (unfold Q2R; simpl; lra).
      apply sqrt_0.
    - rewrite Hv. simpl. rewrite Ev. now apply (central_moment_2_const c).
    - apply Qle_refl. }
  assert (Hfc : to_float64 c = c).
  { destruct l as [|x r]; [congruence|].
    apply (small_to_float64 (x :: r) c Hs).
    inversion Hc; subst. now left. }
  unfold skew_cell. rewrite Hmode, Hmedian. unfold bind.
  eexists. split; [reflexivity|]. cbn [sk1 sk2].
  rewrite (toR_exactly _ _ Hmean), Hstd, Q2R_inject_Z, Hfc. cbn [fsub fmul].
  split; apply fdiv_zero_zero; try reflexivity; lra.
Qed.

(** X10: where cell 5 stops and where it runs to its end.  It stops with
    TypeError (at the mode) on the empty array, with ValueError (at the
    mode) on an int64 array with a negative entry, and with IndexError
    (at the median) on a
    single sample between 0 and 2^20.  With two or more samples between
    0 and 2^20 it runs to its end, and whenever it does, the array has
    at least two entries and none is negative. *)
Theorem skew_cell_domain (l : list Z) :
  (l = [] -> skew_cell l = Raise TypeError) /\
  (int64_array l -> Exists (fun v => (v < 0)%Z) l ->
   skew_cell l = Raise ValueError) /\
  (len l = 1%Z -> Forall (fun v => (0 <= v <= 2 ^ 20)%Z) l ->
   skew_cell l = Raise IndexError) /\
  ((2 <= len l)%Z -> Forall (fun v => (0 <= v <= 2 ^ 20)%Z) l ->
   exists sk, skew_cell l = Ret sk) /\
  (forall sk, skew_cell l = Ret sk ->
              (2 <= len l)%Z /\ Forall (fun v => (0 <= v)%Z) l).
Proof.
  assert (Hmode : Forall (fun v => (0 <= v <= 2 ^ 20)%Z) l -> l <> [] ->
                  exists mo, mode l = Ret mo).
  { intros Hrange Hne. destruct (Forall_between _ _ l Hrange) as [Hpos Hle].
    destruct (bincount_argmax (samples l) (samples_nonempty l Hne)
                (samples_Forall _ l Hpos)
                (samples_counters (2 ^ 20) l Hne eq_refl Hle)) as (m & Hm & _).
    now exists m. }
  split; [intros ->; reflexivity|].
  split; [|split; [|split]].
  - intros _ Hneg. unfold skew_cell. rewrite (mode_negative l Hneg).
    reflexivity.
  - intros H1 Hrange.
    assert (Hne : l <> []) by (intros ->; vm_compute in H1; discriminate).
    destruct (Hmode Hrange Hne) as [mo Hmo].
    assert (Hmed : median l = Raise IndexError).
    { unfold median. rewrite median_index. apply getitem_outside.
      rewrite len_samples, H1. vm_compute. discriminate. }
    unfold skew_cell. rewrite Hmo, Hmed. reflexivity.
  - intros H2 Hrange.
    assert (Hne : l <> []) by (intros ->; vm_compute in H2; congruence).
    destruct (Hmode Hrange Hne) as [mo Hmo].
    destruct (lookup_samples l ((len l + 1) / 2)) as (me & _ & Hme & _).
    { index_in_range. }
    unfold skew_cell, median. rewrite Hmo, median_index, Hme. cbn [bind].
    eexists. reflexivity.
  - intros sk Hsk. unfold skew_cell in Hsk.
    destruct (mode l) as [mo|e] eqn:Emo; [|discriminate].
    destruct (median l) as [me|e] eqn:Eme; [|discriminate].
    destruct (mode_Ret l mo Emo) as (_ & Hpos & _). split; [|exact Hpos].
    destruct (Z_lt_le_dec (len l) 2) as [Hshort | Hlong]; [|exact Hlong].
    exfalso. unfold median in Eme. rewrite median_index in Eme.
    pose proof (len_nonneg l) as Hl.
    rewrite getitem_outside in Eme; [discriminate|].
    rewrite len_samples.
    assert (C : (len l = 0 \/ len l = 1)%Z) by lia.
    destruct C as [-> | ->]; vm_compute; discriminate.
Qed.

(** X11: what cell 5 prints on a small array of at least two samples,
    none negative.  If the samples are not all equal, sk1 =
    (mean - mode) / std, sk2 = 3 (mean - median) / std and g1 =
    m3 / (m2 sqrt m2) are numbers, with std the square root of a
    positive variance m2; if they are all equal, sk1 and sk2 are NaN.
    Neither ratio is an infinity. *)
Theorem skew_cell_values (l : list Z) :
  (2 <= len l)%Z -> small l -> Forall (fun v => (0 <= v)%Z) l ->
  exists sk : skewness,
    skew_cell l = Ret sk /\
    (((exists c : Z, Forall (fun x => x = c) l) /\
      sk1 sk = NaN /\ sk2 sk = NaN)
     \/
     ((exists a b : Z, In a l /\ In b l /\ a <> b) /\
      exists (mo me : Z) (v : Q),
        mode l = Ret mo /\ median l = Ret me /\
        variance l = Num v /\ 0 < v /\
        sk1 sk = Num ((Q2R (arithmetic_mean l) - IZR mo) / sqrt (Q2R v))%R /\
        sk2 sk = Num (3 * (Q2R (arithmetic_mean l) - IZR me)
                      / sqrt (Q2R v))%R /\
        g1 sk = Num (Q2R (central_moment 3 l)
                     / (Q2R v * sqrt (Q2R v)))%R)) /\
    (forall s : bool, sk1 sk <> Inf s /\ sk2 sk <> Inf s).
Proof.
  intros Hlen Hs Hpos.
  assert (Hne : l <> []) by (intros ->; vm_compute in Hlen; congruence).
  destruct (constant_or_spread l Hne) as [[c Hc] | Hd].
  - assert (Hc0 : (0 <= c)%Z).
    { destruct l as [|x r]; [congruence|].
      inversion Hc; inversion Hpos; subst. assumption. }
    destruct (skew_cell_constant c l Hlen Hs Hc0 Hc) as (sk & Hsk & H1 & H2).
    exists sk. split; [exact Hsk|]. split.
    + left. split; [now exists c | now split].
    + intros s. rewrite H1, H2. split; discriminate.
  - destruct (skew_cell_spread l Hs Hpos Hd)
      as (sk & mo & me & v & Hmo & Hme & Hv & Hvp & Hsk & H1 & H2 & H3).
    exists sk. split; [exact Hsk|]. split.
    + right. split; [exact Hd|]. exists mo, me, v. repeat split; assumption.
    + intros s. rewrite H1, H2. split; discriminate.
Qed.

Lemma skew_cell_values_witness :
  exists sk : skewness,
    skew_cell samples_literal = Ret sk /\
    (((exists c : Z, Forall (fun x => x = c) samples_literal) /\
      sk1 sk = NaN /\ sk2 sk = NaN)
     \/
     ((exists a b : Z,
          In a samples_literal /\ In b samples_literal /\ a <> b) /\
      exists (mo me : Z) (v : Q),
        mode samples_literal = Ret mo /\ median samples_literal = Ret me /\
        variance samples_literal = Num v /\ 0 < v /\
        sk1 sk = Num ((Q2R (arithmetic_mean samples_literal) - IZR mo)
                      / sqrt (Q2R v))%R /\
        sk2 sk = Num (3 * (Q2R (arithmetic_mean samples_literal) - IZR me)
                      / sqrt (Q2R v))%R /\
        g1 sk = Num (Q2R (central_moment 3 samples_literal)
                     / (Q2R v * sqrt (Q2R v)))%R)) /\
    (forall s : bool, sk1 sk <> Inf s /\ sk2 sk <> Inf s).
Proof.
  apply (skew_cell_values samples_literal).
  - vm_compute. discriminate.
  - split.
    + vm_compute. discriminate.
    + unfold samples_literal. repeat constructor; vm_compute; discriminate.
  - unfold samples_literal. repeat constructor; discriminate.
Defined.

Close Scope Q_scope.

(** ** Where the order statistics sit *)

Lemma filter_length_perm (f : Z -> bool) (a b : list Z) :
  Permutation a b -> length (filter f a) = length (filter f b).
Proof.
  induction 1 as [| x a b _ IH | x y a | a b c _ IH1 _ IH2]; simpl.
  - reflexivity.
  - destruct (f x); simpl; now rewrite IH.
  - destruct (f x), (f y); reflexivity.
  - now rewrite IH1.
Qed.

Lemma filter_length_le (f : Z -> bool) (a : list Z) :
  (length (filter f a) <= length a)%nat.
Proof.
  induction a as [|x r IH]; simpl; [lia|].
  destruct (f x); simpl; lia.
Qed.

Lemma filter_length_all (f : Z -> bool) (a : list Z) :
  Forall (fun x => f x = true) a -> length (filter f a) = length a.
Proof.
  induction 1 as [|x r Hx _ IH]; simpl; [reflexivity|].
  rewrite Hx. simpl. now rewrite IH.
Qed.

(** In an ascending array the entry at position i has at least i + 1
    entries at or below it and all the entries from i on at or above. *)
Lemma sorted_rank (s : list Z) :
  StronglySorted Z.le s ->
  forall (i : nat) (v : Z),
    nth_error s i = Some v ->
    (i + 1 <= length (filter (fun x => (x <=? v)%Z) s))%nat /\
    (length s - i <= length (filter (fun x => (v <=? x)%Z) s))%nat.
Proof.
  induction 1 as [|y r Hs IH Hall]; intros i v Hv.
  - destruct i; discriminate.
  - destruct i as [|i]; simpl in Hv.
    + injection Hv as <-. split.
      * simpl. rewrite Z.leb_refl. simpl. lia.
      * rewrite filter_length_all; [lia|].
        constructor; [apply Z.leb_refl|].
        eapply Forall_impl; [|exact Hall]. intros a Ha. now apply Z.leb_le.
    + assert (Hyv : y <= v).
      { rewrite Forall_forall in Hall. apply Hall.
        eapply nth_error_In; eassumption. }
      destruct (IH i v Hv) as [H1 H2]. split.
      * simpl. replace (y <=? v) with true by (symmetry; now apply Z.leb_le).
        simpl. lia.
      * simpl. destruct (v <=? y); simpl; lia.
Qed.

(** The same, for a lookup in the sorted samples, counted on the input. *)
Lemma lookup_rank (l : list Z) (i v : Z) :
  0 <= i -> getitem (samples l) i = Ret v ->
  i + 1 <= Z.of_nat (length (filter (fun x => x <=? v) l)) /\
  len l - i <= Z.of_nat (length (filter (fun x => v <=? x) l)).
Proof.
  intros Hi Hg. apply getitem_Ret in Hg; [|exact Hi].
  destruct (sorted_rank _ (np_sort_sorted l) _ _ Hg) as [H1 H2].
  rewrite (filter_length_perm (fun x => x <=? v) _ _ (np_sort_perm l)) in H1.
  rewrite (filter_length_perm (fun x => v <=? x) _ _ (np_sort_perm l)) in H2.
  rewrite (Permutation_length (np_sort_perm l)) in H2.
  unfold len. lia.
Qed.

(** X12: the median printed by the notebook sits above the middle: with
    n >= 2 samples, at least floor((n+1)/2) + 1 of them, more than half,
    are at or below it, and at least n - floor((n+1)/2) are at or above
    it. *)
Theorem median_rank (l : list Z) :
  2 <= len l ->
  exists m : Z,
    median l = Ret m /\
    (len l + 1) / 2 + 1 <= Z.of_nat (length (filter (fun x => x <=? m) l)) /\
    len l < 2 * Z.of_nat (length (filter (fun x => x <=? m) l)) /\
    len l - (len l + 1) / 2
      <= Z.of_nat (length (filter (fun x => m <=? x) l)).
Proof.
  intros Hn.
  destruct (lookup_samples l ((len l + 1) / 2)) as (m & _ & Hm & _).
  { index_in_range. }
  assert (H0 : 0 <= (len l + 1) / 2) by (apply Z.div_pos; lia).
  destruct (lookup_rank l _ m H0 Hm) as [H1 H2].
  exists m. split; [|split; [exact H1 | split; [|exact H2]]].
  - unfold median. now rewrite median_index.
  - pose proof (Z.mul_div_le (len l + 1) 2 ltac:(lia)).
    pose proof (Z.mul_succ_div_gt (len l + 1) 2 ltac:(lia)). lia.
Qed.

Lemma median_rank_witness :
  exists m : Z,
    median [1; 2; 3] = Ret m /\
    (len [1; 2; 3] + 1) / 2 + 1
      <= Z.of_nat (length (filter (fun x => x <=? m) [1; 2; 3])) /\
    len [1; 2; 3]
      < 2 * Z.of_nat (length (filter (fun x => x <=? m) [1; 2; 3])) /\
    len [1; 2; 3] - (len [1; 2; 3] + 1) / 2
      <= Z.of_nat (length (filter (fun x => m <=? x) [1; 2; 3])).
Proof.
  apply (median_rank [1; 2; 3]). vm_compute. discriminate.
Defined.

(** X13: from four samples on, at least floor((n+1)/4) + 1 samples are at
    or below the lower quartile, and at least n - floor(3(n+1)/4) samples
    are at or above the upper quartile. *)
Theorem quartile_ranks (l : list Z) :
  4 <= len l ->
  exists q1 q3 : Z,
    lower_q l = Ret q1 /\ upper_q l = Ret q3 /\
    (len l + 1) / 4 + 1
      <= Z.of_nat (length (filter (fun x => x <=? q1) l)) /\
    len l - (len l + 1) / 4
      <= Z.of_nat (length (filter (fun x => q1 <=? x) l)) /\
    3 * (len l + 1) / 4 + 1
      <= Z.of_nat (length (filter (fun x => x <=? q3) l)) /\
    len l - 3 * (len l + 1) / 4
      <= Z.of_nat (length (filter (fun x => q3 <=? x) l)).
Proof.
  intros Hn.
  destruct (lookup_samples l ((len l + 1) / 4)) as (q1 & _ & H1 & _).
  { index_in_range. }
  destruct (lookup_samples l (3 * (len l + 1) / 4)) as (q3 & _ & H3 & _).
  { index_in_range. }
  assert (P1 : 0 <= (len l + 1) / 4) by (apply Z.div_pos; lia).
  assert (P3 : 0 <= 3 * (len l + 1) / 4) by (apply Z.div_pos; lia).
  destruct (lookup_rank l _ q1 P1 H1) as [A1 A2].
  destruct (lookup_rank l _ q3 P3 H3) as [B1 B2].
  exists q1, q3. repeat split; try assumption.
  - unfold lower_q. now rewrite lower_index.
  - unfold upper_q. now rewrite upper_index.
Qed.

Lemma quartile_ranks_witness :
  exists q1 q3 : Z,
    lower_q samples_literal = Ret q1 /\ upper_q samples_literal = Ret q3 /\
    (len samples_literal + 1) / 4 + 1
      <= Z.of_nat (length (filter (fun x => x <=? q1) samples_literal)) /\
    len samples_literal - (len samples_literal + 1) / 4
      <= Z.of_nat (length (filter (fun x => q1 <=? x) samples_literal)) /\
    3 * (len samples_literal + 1) / 4 + 1
      <= Z.of_nat (length (filter (fun x => x <=? q3) samples_literal)) /\
    len samples_literal - 3 * (len samples_literal + 1) / 4
      <= Z.of_nat (length (filter (fun x => q3 <=? x) samples_literal)).
Proof.
  apply (quartile_ranks samples_literal). vm_compute. discriminate.
Defined.
